(** * Selection-bias meme pipeline: mask synthesis, mask application, panel reconciliation

    A shallow embedding of the three Python modules

    - [step5_create_masked.py]      ([create_masked_stipple], the Mask Applicator),
    - [step4_create_block_letter.py] ([create_block_letter_s], the Mask Synthesizer),
    - [create_meme.py]              ([ensure_size] and the reconciliation that opens
                                     [create_statistics_meme], the Panel Compositor),

    followed by the properties the specification states about them.

    Modelling decisions.

    - A pixel is an IEEE-754 value, [spec_float] of the Standard Library.  Every
      value is kept in its binary64 canonical form, also inside a [float32]
      array (a binary32 value is a binary64 value), so that [SFcompare] compares
      any two of them.  Arithmetic is done at the precision of the array's dtype.
    - An image is a two-dimensional [ndarray]: the docstrings of the three
      modules declare every image a 2D array (height, width).  The pixel buffer
      is row-major.
    - numpy arrays are mutable objects handled by reference: they live in a heap
      ([gmap loc ndarray]) and Python code is a state-and-exception computation
      over that heap.  Temporaries that never escape an expression (the Boolean
      array [mask_areas], the uint8 array fed to PIL) are kept as values.
    - A Python float compared with an array is first converted to the dtype
      of the array, as numpy does: a threshold meets a float32 mask rounded to
      binary32.
    - Pillow is outside the repository.  Its font files, the buffers its
      native code can provide, text measurement, text rasteriser and
      resampling filter are operations of the class [Pillow], and each of them
      may raise; what Pillow documents about sizes is stated where a theorem
      needs it. *)

From Stdlib Require Import ZArith QArith Qround Qpower Lqa Floats.SpecFloat Strings.Byte.
From stdpp Require Import base numbers list strings pretty gmap.

Local Open Scope Z_scope.

(** ** IEEE-754 values *)

Module IEEE.

Inductive dtype := float32 | float64.

Definition prec (dt : dtype) : Z :=
  match dt with float32 => 24 | float64 => 53 end.

Definition emax (dt : dtype) : Z :=
  match dt with float32 => 128 | float64 => 1024 end.

(** Rounding of a value to the format [dt] (to nearest, ties to even), the
    result in the canonical form of [dt]. *)
Definition round_to (dt : dtype) (x : spec_float) : spec_float :=
  match x with
  | S754_finite s m e => binary_normalize (prec dt) (emax dt) (cond_Zopp s (Zpos m)) e s
  | _ => x
  end.

(** The binary64 canonical form of a value of a narrower format (exact). *)
Definition widen (x : spec_float) : spec_float := round_to float64 x.

(** A Python float (a binary64 value) converted to the format [dt]: itself
    for float64, the nearest binary32 value for float32. *)
Definition as_dtype (dt : dtype) (x : spec_float) : spec_float :=
  match dt with
  | float64 => x
  | float32 => widen (round_to float32 x)
  end.

(** A binary operation carried out in the format [dt]. *)
Definition at_dtype (dt : dtype)
    (op : Z -> Z -> spec_float -> spec_float -> spec_float)
    (x y : spec_float) : spec_float :=
  widen (op (prec dt) (emax dt) (round_to dt x) (round_to dt y)).

Definition mul (dt : dtype) := at_dtype dt SFmul.
Definition div (dt : dtype) := at_dtype dt SFdiv.

(** Python's float(n) for an int: correctly rounded binary64. *)
Definition of_Z (n : Z) : spec_float := binary_normalize 53 1024 n 0 false.

Definition zero : spec_float := S754_zero false.
Definition one : spec_float := Eval cbv in of_Z 1.
Definition f255 : spec_float := Eval cbv in of_Z 255.

(** Truncation toward zero of a finite value: C's float-to-integer cast and
    Python's int() agree on it. *)
Definition trunc (x : spec_float) : Z :=
  match x with
  | S754_finite s m e => cond_Zopp s (Z.shiftl (Zpos m) e)
  | _ => 0
  end.

(** The rational number a finite value stands for, (-1)^s * m * 2^e. *)
Definition to_Q (x : spec_float) : Q :=
  match x with
  | S754_finite s m e =>
      if decide (0 ≤ e) then inject_Z (cond_Zopp s (Zpos m) * 2 ^ e)
      else Qmake (cond_Zopp s (Zpos m)) (Z.to_pos (2 ^ (- e)))
  | _ => 0%Q
  end.

(** [x] lies in the closed interval [0, 1]. *)
Definition in_unit (x : spec_float) : bool := SFleb zero x && SFleb x one.

(** [x] is neither NaN nor an infinity. *)
Definition is_finite (x : spec_float) : bool :=
  match x with
  | S754_zero _ | S754_finite _ _ _ => true
  | _ => false
  end.

End IEEE.

(** ** Python objects, exceptions and the heap *)

Module Py.

Inductive exn :=
  | ValueError (msg : string)
  | OverflowError (msg : string)
  | MemoryError
  | DecompressionBombError (msg : string).

(** Outcome of a call: a value, a raised exception, or [Dangling] when a
    reference names no object (no execution of a Python program does). *)
Inductive result (A : Type) :=
  | Ok (a : A)
  | Raise (e : exn)
  | Dangling.
Arguments Ok {A} a.
Arguments Raise {A} e.
Arguments Dangling {A}.

(** Calls in a row: the first one that raises ends the sequence. *)
#[global] Instance result_ret : MRet result := λ A (a : A), Ok a.

#[global] Instance result_bind : MBind result := λ A B (k : A → result B) (c : result A),
  match c with
  | Ok a => k a
  | Raise e => Raise e
  | Dangling => Dangling
  end.

End Py.

Module np.
Import IEEE.

(** A two-dimensional array of floats: [shape = (height, width)], the pixels
    in row-major order. *)
Record ndarray := mk_ndarray {
  dtype_of : dtype;
  shape : nat * nat;
  data : list spec_float
}.

Definition size_of (sh : nat * nat) : nat := (sh.1 * sh.2)%nat.

(** The buffer holds exactly height * width pixels. *)
Definition well_formed (a : ndarray) : Prop := length (data a) = size_of (shape a).

(** [a[i, j]] for indices counted from the top-left corner. *)
Definition getitem (a : ndarray) (i j : nat) : option spec_float :=
  if decide (i < (shape a).1 ∧ j < (shape a).2)%nat
  then data a !! (i * (shape a).2 + j)%nat
  else None.

(** Python's repr of a shape tuple, as an f-string prints it. *)
Definition shape_repr (sh : nat * nat) : string :=
  "(" +:+ pretty sh.1 +:+ ", " +:+ pretty sh.2 +:+ ")".

(** [a < t] for a Python float [t]: the Boolean array of the element-wise
    comparison.  numpy converts the scalar to the dtype of the array before
    it compares. *)
Definition lt_scalar (a : ndarray) (t : spec_float) : list bool :=
  (λ x, SFltb x (as_dtype (dtype_of a) t)) <$> data a.

(** The buffer after [a[mask] = v] for a Boolean [mask] of the shape of [a]. *)
Definition masked_fill (mask : list bool) (v : spec_float) (xs : list spec_float)
    : list spec_float :=
  zip_with (λ (b : bool) x, if b then v else x) mask xs.

End np.

Abbreviation loc := positive (only parsing).
Abbreviation heap := (gmap positive np.ndarray) (only parsing).

Module PyM.
Import Py np.

(** Computations over the heap of arrays that may raise. *)
Definition py (A : Type) : Type := heap → result A * heap.

#[global] Instance py_ret : MRet py := λ A (a : A) h, (Ok a, h).

#[global] Instance py_bind : MBind py := λ A B (k : A → py B) (c : py A) h,
  match c h with
  | (Ok a, h') => k a h'
  | (Raise e, h') => (Raise e, h')
  | (Dangling, h') => (Dangling, h')
  end.

Definition raise {A} (e : exn) : py A := λ h, (Raise e, h).

(** Read the object a reference names. *)
Definition deref (l : loc) : py ndarray :=
  λ h, match h !! l with Some a => (Ok a, h) | None => (Dangling, h) end.

(** Allocate a new array object. *)
Definition alloc (a : ndarray) : py loc :=
  λ h, let l := fresh (dom h) in (Ok l, <[l := a]> h).

(** Overwrite the object a reference names (in-place mutation). *)
Definition store (l : loc) (a : ndarray) : py unit :=
  λ h, match h !! l with Some _ => (Ok (), <[l := a]> h) | None => (Dangling, h) end.

(** A call that may raise and does not touch the heap. *)
Definition lift {A} (r : result A) : py A := λ h, (r, h).

(** The array at [l] exists and all its values are in [0, 1]. *)
Definition in_unit_at (h : heap) (l : loc) : Prop :=
  ∃ a, h !! l = Some a ∧ Forall (λ v, IEEE.in_unit v = true) (data a).

End PyM.

(** ** step5_create_masked.py *)

Module step5.
Import IEEE Py np PyM.

(** [arr.copy()] *)
Definition ndarray_copy (arr : loc) : py loc :=
  a ← deref arr; alloc a.

(** [arr[mask] = v] *)
Definition setitem_mask (arr : loc) (mask : list bool) (v : spec_float) : py unit :=
  a ← deref arr;
  store arr (mk_ndarray (dtype_of a) (shape a) (masked_fill mask v (data a))).

Definition shape_mismatch_msg (s m : ndarray) : string :=
  "Images must have the same shape. " +:+
  "stipple_img: " +:+ shape_repr (shape s) +:+ ", mask_img: " +:+ shape_repr (shape m).

Definition create_masked_stipple (stipple_img mask_img : loc) (threshold : spec_float)
    : py loc :=
  s ← deref stipple_img;
  m ← deref mask_img;
  if decide (shape s ≠ shape m) then
    raise (ValueError (shape_mismatch_msg s m))
  else
    masked_stipple ← ndarray_copy stipple_img;
    let mask_areas := lt_scalar m threshold in
    setitem_mask masked_stipple mask_areas one;;
    mret masked_stipple.

(** The array the call builds when the shapes agree, as a value: the copy of
    [s] after the masked assignment. *)
Definition masked_value (s m : ndarray) (threshold : spec_float) : ndarray :=
  mk_ndarray (dtype_of s) (shape s) (masked_fill (lt_scalar m threshold) one (data s)).

(** The default of the [threshold] parameter, 0.5. *)
Definition default_threshold : spec_float := Eval cbv in div float64 (of_Z 1) (of_Z 2).

End step5.

(** ** Pillow (PIL), as far as the two modules use it *)

Module PIL.
Import IEEE Py np.

(** An image of mode 'L': one unsigned byte per pixel, row-major. *)
Record image := mk_image {
  im_width : nat;
  im_height : nat;
  im_pixels : list byte
}.

(** What the platform and Pillow's native code decide: which font files
    exist and load, which buffers can be provided, how a text measures and
    where its ink falls, and what the resampling filter computes.  Every
    call into the native code may raise. *)
Class Pillow := {
  font : Type;
  (** [os.path.exists(path)] *)
  path_exists : string → bool;
  (** [ImageFont.truetype(path, size)]; [None] when it raises. *)
  truetype : string → Z → option font;
  (** [ImageFont.load_default()] *)
  load_default : font;
  (** The message of the OverflowError that CPython raises for an int that
      does not fit a C int; its wording varies with the version of Python. *)
  c_int_overflow : Z → string;
  (** The native constructor of a one-byte-per-pixel image of the given
      width and height, both within the C int range: it raises when it
      cannot provide the buffer. *)
  core_fill : nat → nat → result unit;
  (** [draw.textbbox((0, 0), text, font=font)]: (left, top, right, bottom). *)
  textbbox : font → string → result (Z * Z * Z * Z);
  (** [draw.text(xy, text, fill=fill, font=font)]: it raises (a glyph too
      large to rasterise is refused as a decompression bomb), or changes the
      pixel in column [c] and row [r] from its old value to a new one. *)
  text_ink : font → string → Z * Z → byte → result (nat * nat → byte → byte);
  (** [im.resize((w, h), Image.Resampling.LANCZOS)] *)
  resize_LANCZOS : image → nat * nat → result image
}.

(** An image filled with one colour. *)
Definition blank (width height : nat) (color : byte) : image :=
  mk_image width height (replicate (width * height) color).

(** [Image.new('L', (width, height), color)].  Pillow's size check rejects a
    negative width or height and accepts zero; the native constructor then
    takes the width and the height as C ints, in this order, and provides the
    buffer. *)
Definition Image_new `{Pillow} (width height : Z) (color : byte) : result image :=
  if decide (width < 0 ∨ height < 0) then
    Raise (ValueError "Width and height must be >= 0")
  else if decide (2 ^ 31 ≤ width) then
    Raise (OverflowError (c_int_overflow width))
  else if decide (2 ^ 31 ≤ height) then
    Raise (OverflowError (c_int_overflow height))
  else
    core_fill (Z.to_nat width) (Z.to_nat height);;
    mret (blank (Z.to_nat width) (Z.to_nat height) color).

(** Column and row of the [k]-th pixel of a row-major buffer of width [w]. *)
Definition coords (w k : nat) : nat * nat := (k `mod` w, k `div` w)%nat.

(** An image after every pixel has taken what [ink] makes of it. *)
Definition paint (img : image) (ink : nat * nat → byte → byte) : image :=
  mk_image (im_width img) (im_height img)
    (imap (λ k old, ink (coords (im_width img) k) old) (im_pixels img)).

(** [ImageDraw.Draw(img).text(xy, text, fill=fill, font=font)]: drawing
    changes pixel values in place and never the size of the image. *)
Definition draw_text `{Pillow} (img : image) (xy : Z * Z) (text : string)
    (fill : byte) (f : font) : result image :=
  ink ← text_ink f text xy fill;
  mret (paint img ink).

Definition byte_to_Z (b : byte) : Z := Z.of_N (Byte.to_N b).

(** [np.array(img, dtype=np.float32)] *)
Definition to_array_float32 (img : image) : ndarray :=
  mk_ndarray float32 (im_height img, im_width img)
    ((λ b, of_Z (byte_to_Z b)) <$> im_pixels img).

(** [arr.astype(np.uint8)] on one element: truncation toward zero.  Outside
    [0, 256) numpy leaves the result to the C cast of the platform, here the
    conversion through a 32-bit integer of the x86-64 builds: the low byte of
    the integer when the value fits 32 bits, and 0 when it does not, as for
    NaN and the infinities. *)
Definition astype_uint8 (x : spec_float) : byte :=
  if decide (- 2 ^ 31 ≤ trunc x < 2 ^ 31) then
    default "000"%byte (Byte.of_N (Z.to_N (trunc x `mod` 256)))
  else "000"%byte.

(** [Image.fromarray(arr)] for a 2D uint8 array of shape [sh]. *)
Definition Image_fromarray (sh : nat * nat) (bytes : list byte) : image :=
  mk_image sh.2 sh.1 bytes.

(** [arr / 255.0] *)
Definition div_255 (a : ndarray) : ndarray :=
  mk_ndarray (dtype_of a) (shape a) ((λ x, div (dtype_of a) x f255) <$> data a).

(** [arr * 255] *)
Definition mul_255 (a : ndarray) : list spec_float :=
  (λ x, mul (dtype_of a) x f255) <$> data a.

(** Pillow's documented behaviour of [resize] on a non-empty image and a
    positive target size: a new image of exactly that size. *)
Definition resize_exact `{Pillow} : Prop :=
  ∀ (im : image) (w h : nat),
    (0 < im_width im)%nat → (0 < im_height im)%nat →
    length (im_pixels im) = (im_width im * im_height im)%nat →
    (0 < w)%nat → (0 < h)%nat →
    ∃ out, resize_LANCZOS im (w, h) = Ok out ∧
           im_width out = w ∧ im_height out = h ∧
           length (im_pixels out) = (w * h)%nat.

(** What Pillow documents of [textbbox]: the box it returns, moved to where
    the text is drawn, holds all the ink of the text; a pixel outside it keeps
    its value. *)
Definition ink_within_bbox `{Pillow} : Prop :=
  ∀ (f : font) (text : string) (xy : Z * Z) (fill : byte) (b0 b1 b2 b3 : Z)
    (ink : nat * nat → byte → byte) (cr : nat * nat) (old : byte),
    textbbox f text = Ok (b0, b1, b2, b3) →
    text_ink f text xy fill = Ok ink →
    ¬ (xy.1 + b0 ≤ Z.of_nat cr.1 < xy.1 + b2 ∧ xy.2 + b1 ≤ Z.of_nat cr.2 < xy.2 + b3) →
    ink cr old = old.

End PIL.

(** ** step4_create_block_letter.py *)

Module step4.
Import IEEE Py np PyM PIL.

(** Python's float(n): OverflowError when [n] is beyond the binary64 range. *)
Definition float_of_int (n : Z) : result spec_float :=
  match of_Z n with
  | S754_infinity _ => Raise (OverflowError "int too large to convert to float")
  | x => Ok x
  end.

(** Python's int(x): truncation toward zero. *)
Definition int_of_float (x : spec_float) : result Z :=
  match x with
  | S754_nan => Raise (ValueError "cannot convert float NaN to integer")
  | S754_infinity _ => Raise (OverflowError "cannot convert float infinity to integer")
  | _ => Ok (trunc x)
  end.

(** [int(min(height, width) * font_size_ratio)] *)
Definition font_size_of (height width : Z) (font_size_ratio : spec_float) : result Z :=
  match float_of_int (Z.min height width) with
  | Ok m => int_of_float (SFmul 53 1024 m font_size_ratio)
  | Raise e => Raise e
  | Dangling => Dangling
  end.

Definition font_paths : list string :=
  [ "C:/Windows/Fonts/arialbd.ttf";
    "C:/Windows/Fonts/arial.ttf";
    "C:/Windows/Fonts/calibrib.ttf";
    "C:/Windows/Fonts/timesbd.ttf";
    "/System/Library/Fonts/Supplemental/Arial Bold.ttf";
    "/Library/Fonts/Arial Bold.ttf";
    "/System/Library/Fonts/Helvetica.ttc";
    "/usr/share/fonts/truetype/dejavu/DejaVuSans-Bold.ttf";
    "/usr/share/fonts/truetype/liberation/LiberationSans-Bold.ttf";
    "/usr/share/fonts/truetype/noto/NotoSans-Bold.ttf" ].

(** The loop over [font_paths]: the first file that exists and loads. *)
Fixpoint first_font `{Pillow} (paths : list string) (font_size : Z) : option font :=
  match paths with
  | [] => None
  | font_path :: rest =>
      if path_exists font_path then
        match truetype font_path font_size with
        | Some f => Some f
        | None => first_font rest font_size
        end
      else first_font rest font_size
  end.

(** The font the letter is drawn with. *)
Definition select_font `{Pillow} (font_size : Z) : font :=
  match first_font font_paths font_size with
  | Some f => f
  | None =>
      match truetype "arial.ttf" font_size with
      | Some f => f
      | None => load_default
      end
  end.

(** Where the letter is drawn so that its bounding box is centred. *)
Definition text_origin (height width : Z) (bbox : Z * Z * Z * Z) : Z * Z :=
  let '(b0, b1, b2, b3) := bbox in
  let text_width := b2 - b0 in
  let text_height := b3 - b1 in
  let x := (width - text_width) `div` 2 - b0 in
  let y := (height - text_height) `div` 2 - b1 in
  (x, y).

Definition create_block_letter_s `{Pillow} (height width : Z) (letter : string)
    (font_size_ratio : spec_float) : py loc :=
  img ← lift (Image_new width height "255"%byte);
  font_size ← lift (font_size_of height width font_size_ratio);
  let f := select_font font_size in
  bbox ← lift (textbbox f letter);
  img ← lift (draw_text img (text_origin height width bbox) letter "000"%byte f);
  alloc (div_255 (to_array_float32 img)).

(** The defaults of [letter] and [font_size_ratio]. *)
Definition default_letter : string := "S".
Definition default_font_size_ratio : spec_float :=
  Eval cbv in div float64 (of_Z 9) (of_Z 10).

End step4.

(** ** create_meme.py *)

Module create_meme.
Import IEEE Py np PyM PIL.

(** The helper [ensure_size] of [create_statistics_meme].  The two warnings
    it prints, the only use of [name], are not part of the model. *)
Definition ensure_size `{Pillow} (img : loc) (target_h target_w : nat) (name : string)
    : py loc :=
  a ← deref img;
  if decide (shape a ≠ (target_h, target_w)) then
    let img_pil := Image_fromarray (shape a) (astype_uint8 <$> mul_255 a) in
    img_resized ← lift (resize_LANCZOS img_pil (target_w, target_h));
    alloc (div_255 (to_array_float32 img_resized))
  else
    mret img.

(** [create_statistics_meme] up to the list [panel_data]: the shape of the
    first image is read and the other three are reconciled with it.  The
    matplotlib figure built from [panel_data] is not part of the model. *)
Definition panel_data `{Pillow}
    (original_img stipple_img block_letter_img masked_stipple_img : loc)
    : py (list loc) :=
  o ← deref original_img;
  let '(h, w) := shape o in
  stipple_img ← ensure_size stipple_img h w "stipple_img";
  block_letter_img ← ensure_size block_letter_img h w "block_letter_img";
  masked_stipple_img ← ensure_size masked_stipple_img h w "masked_stipple_img";
  mret [original_img; stipple_img; block_letter_img; masked_stipple_img].

(** The pixels of [a] are values in [0, 1]. *)
Definition unit_pixels (a : ndarray) : Prop :=
  Forall (λ x, valid_binary 53 1024 x = true ∧ in_unit x = true) (data a).

(** The 8-bit levels of the pixels [xs] of an array of dtype [dt]: one byte
    per pixel, the integer part of the pixel times 255, the product taken in
    the precision of the array.  As a number the level is at most one below
    255 times the pixel, up to the rounding of the product (less than
    1/2048); 0.0 gives level 0 and 1.0 level 255. *)
Definition levels_of (dt : dtype) (xs : list spec_float) (bytes : list byte) : Prop :=
  length bytes = length xs ∧
  ∀ k x, xs !! k = Some x →
    ∃ b, bytes !! k = Some b ∧
         byte_to_Z b = Qfloor (to_Q (mul dt x f255)) ∧
         (255 * to_Q x - 1 - (1 # 2048) < inject_Z (byte_to_Z b))%Q ∧
         (inject_Z (byte_to_Z b) <= 255 * to_Q x + (1 # 2048))%Q ∧
         (x = zero → b = "000"%byte) ∧ (x = one → b = "255"%byte).

(** What reconciliation with the canonical shape [sh] makes of the panel
    [a] at [l]: the panel [l'] in the heap [h'] has shape [sh]; it is [a]
    itself, the same object, when the shapes agree, and otherwise a new
    float32 array: Pillow is given the 8-bit levels of [a] as an image of the
    shape of [a], resizes it to [sh], and each byte of the outcome, divided
    by 255, is a pixel of the panel. *)
Definition reconciled `{Pillow} (h' : heap) (sh : nat * nat)
    (l : loc) (a : ndarray) (l' : loc) : Prop :=
  ∃ a', h' !! l' = Some a' ∧ h' !! l = Some a ∧ shape a' = sh ∧ well_formed a' ∧
    (shape a = sh → l' = l ∧ a' = a) ∧
    (shape a ≠ sh →
       l' ≠ l ∧
       ∃ (bytes : list byte) (out : image),
         levels_of (dtype_of a) (data a) bytes ∧
         resize_LANCZOS (mk_image (shape a).2 (shape a).1 bytes) (sh.2, sh.1) = Ok out ∧
         a' = mk_ndarray float32 (im_height out, im_width out)
                ((λ b, div float32 (of_Z (byte_to_Z b)) f255) <$> im_pixels out)).

End create_meme.

(** ** Sample platforms and images *)

Module samples.
Import IEEE Py np PIL.

(** Nearest-neighbour resampling, standing in for the LANCZOS filter; like
    Pillow it rejects an empty target size. *)
Definition resize_nearest (im : image) (size : nat * nat) : result image :=
  let '(w, h) := size in
  if decide (w = 0 ∨ h = 0)%nat then
    Raise (ValueError "height and width must be > 0")
  else
    Ok (mk_image w h
          ((λ k, default "000"%byte
                   (im_pixels im !!
                      ((k `div` w * im_height im `div` h) * im_width im
                       + k `mod` w * im_width im `div` w)%nat))
             <$> seq 0 (w * h))).

(** A glyph that is a filled square whose side is the font size. *)
Definition square_ink (side : Z) (xy : Z * Z) (fill : byte) (cr : nat * nat)
    (old : byte) : byte :=
  if decide (xy.1 ≤ Z.of_nat cr.1 < xy.1 + side ∧ xy.2 ≤ Z.of_nat cr.2 < xy.2 + side)
  then fill else old.

(** Pillow's guard against decompression bombs: a glyph of more than twice
    [MAX_IMAGE_PIXELS] pixels is not rasterised. *)
Definition MAX_IMAGE_PIXELS : Z := 89478485.

Definition square_text_ink (side : Z) (xy : Z * Z) (fill : byte)
    : result (nat * nat → byte → byte) :=
  if decide (2 * MAX_IMAGE_PIXELS < side * side) then
    Raise (DecompressionBombError
             ("Image size (" +:+ pretty (side * side) +:+ " pixels) exceeds limit of "
              +:+ pretty (2 * MAX_IMAGE_PIXELS)
              +:+ " pixels, could be decompression bomb DOS attack."))
  else Ok (square_ink side xy fill).

(** Buffers of less than 2^32 bytes can be provided. *)
Definition fill_below_4GiB (width height : nat) : result unit :=
  if decide (Z.of_nat width * Z.of_nat height < 2 ^ 32) then Ok () else Raise MemoryError.

(** A platform with one font file, which loads at every positive size. *)
Definition one_font : Pillow := {|
  font := Z;
  path_exists := λ p, bool_decide (p = "/usr/share/fonts/truetype/dejavu/DejaVuSans-Bold.ttf");
  truetype := λ _ size, if decide (0 < size) then Some size else None;
  load_default := 10;
  c_int_overflow := λ _, "Python int too large to convert to C int";
  core_fill := fill_below_4GiB;
  textbbox := λ f _, Ok (0, 0, f, f);
  text_ink := λ f _, square_text_ink f;
  resize_LANCZOS := resize_nearest
|}.

(** A platform without any font file: only the default font is there. *)
Definition no_font : Pillow := {|
  font := Z;
  path_exists := λ _, false;
  truetype := λ _ _, None;
  load_default := 10;
  c_int_overflow := λ _, "Python int too large to convert to C int";
  core_fill := fill_below_4GiB;
  textbbox := λ f _, Ok (0, 0, f, f);
  text_ink := λ f _, square_text_ink f;
  resize_LANCZOS := resize_nearest
|}.

Definition half : spec_float := step5.default_threshold.

(** A 2 x 2 sampled image, two masks of its shape, and a 1 x 3 image. *)
Definition stipple : ndarray := mk_ndarray float64 (2, 2)%nat [zero; one; zero; half].
Definition mask_a : ndarray := mk_ndarray float64 (2, 2)%nat [zero; zero; half; one].
Definition mask_b : ndarray := mk_ndarray float64 (2, 2)%nat [one; zero; one; zero].
Definition strip : ndarray := mk_ndarray float64 (1, 3)%nat [zero; half; one].

Definition store4 : heap := <[4%positive := strip]> (<[3%positive := mask_b]>
    (<[2%positive := mask_a]> {[1%positive := stipple]})).

(** The images of the specification's scenarios: 10 x 10 and 10 x 11. *)
Definition all_black : ndarray := mk_ndarray float64 (10, 10)%nat (replicate 100 zero).
Definition all_white : ndarray := mk_ndarray float64 (10, 10)%nat (replicate 100 one).
Definition wider : ndarray := mk_ndarray float64 (10, 11)%nat (replicate 110 zero).

Definition scenario_store : heap :=
  <[3%positive := wider]> (<[2%positive := all_white]> {[1%positive := all_black]}).

(** An original without rows, next to the 2 x 2 images. *)
Definition no_rows : ndarray := mk_ndarray float64 (0, 3)%nat [].

Definition store5 : heap := <[5%positive := no_rows]> store4.

(** A float32 mask of one pixel holding float32(0.1), a threshold 0.1000000015
    just above it that rounds onto it in binary32, and a float64 mask of one
    white pixel. *)
Definition tenth32 : spec_float :=
  Eval cbv in as_dtype float32 (div float64 (of_Z 1) (of_Z 10)).
Definition just_above_tenth32 : spec_float :=
  Eval cbv in div float64 (of_Z 1000000015) (of_Z 10000000000).

Definition black_dot : ndarray := mk_ndarray float64 (1, 1)%nat [zero].
Definition mask32 : ndarray := mk_ndarray float32 (1, 1)%nat [tenth32].
Definition white_dot : ndarray := mk_ndarray float64 (1, 1)%nat [one].

Definition store32 : heap :=
  <[3%positive := white_dot]> (<[2%positive := mask32]> {[1%positive := black_dot]}).

(** A Pillow image of one row, white then black, and its float32 array. *)
Definition two_pixels : image := mk_image 2 1 ["255"%byte; "000"%byte].

Definition store_quantized : heap :=
  {[1%positive := div_255 (to_array_float32 two_pixels)]}.

End samples.

(** * Properties *)

(** ** Comparison of IEEE values *)

Section Comparison.

Lemma SFcompare_refl_not_Lt (x : spec_float) : SFcompare x x ≠ Some Lt.
Proof.
  destruct x as [s|s| |s m e]; simpl.
  - done.
  - by destruct s.
  - done.
  - destruct s; rewrite Z.compare_refl, Pos.compare_cont_refl; done.
Qed.

Lemma SFltb_irrefl (x : spec_float) : SFltb x x = false.
Proof.
  unfold SFltb. pose proof (SFcompare_refl_not_Lt x) as Hx.
  destruct (SFcompare x x) as [[]|]; congruence.
Qed.

Lemma SFeqb_not_ltb (x y : spec_float) : SFeqb x y = true → SFltb x y = false.
Proof. unfold SFeqb, SFltb. by destruct (SFcompare x y) as [[]|]. Qed.

End Comparison.

(** ** Rounding to a binary format *)

Section BinaryRounding.

Lemma digits2_pos_size (p : positive) : digits2_pos p = Pos.size p.
Proof. induction p; simpl; congruence. Qed.

Lemma digits2_pos_upper (p : positive) : Zpos p < 2 ^ Zpos (digits2_pos p).
Proof.
  rewrite digits2_pos_size. pose proof (Pos.size_gt p) as H.
  rewrite <- Pos2Z.inj_pow. lia.
Qed.

Lemma digits2_pos_lower (p : positive) : 2 ^ (Zpos (digits2_pos p) - 1) <= Zpos p.
Proof.
  rewrite digits2_pos_size. pose proof (Pos.size_le p) as H.
  assert (2 ^ Zpos (Pos.size p) <= 2 * Zpos p) as H'.
  { rewrite <- Pos2Z.inj_pow. lia. }
  replace (Zpos (Pos.size p)) with (Z.succ (Zpos (Pos.size p) - 1)) in H' by lia.
  rewrite Z.pow_succ_r in H' by lia. lia.
Qed.

Lemma digits2_pos_le (p : positive) (k : Z) : Zpos p < 2 ^ k -> Zpos (digits2_pos p) <= k.
Proof.
  intros Hp. pose proof (digits2_pos_lower p) as Hl.
  destruct (Z_le_gt_dec (Zpos (digits2_pos p)) k) as [|Hgt]; [done|].
  assert (2 ^ k <= 2 ^ (Zpos (digits2_pos p) - 1)).
  { destruct (Z_lt_le_dec k 0).
    - rewrite Z.pow_neg_r by lia. apply Z.pow_nonneg. lia.
    - apply Z.pow_le_mono_r; lia. }
  lia.
Qed.

Lemma digits2_pos_mul (p q : positive) :
  Zpos (digits2_pos (p * q)) <= Zpos (digits2_pos p) + Zpos (digits2_pos q).
Proof.
  apply digits2_pos_le. rewrite Pos2Z.inj_mul, Z.pow_add_r by lia.
  pose proof (digits2_pos_upper p). pose proof (digits2_pos_upper q). nia.
Qed.

Lemma Zdigits2_succ (m : Z) : 0 <= m -> Zdigits2 (m + 1) <= Zdigits2 m + 1.
Proof.
  intros Hm. destruct m as [|p|p]; [simpl; lia| |lia].
  change (Zpos p + 1) with (Zpos (p + 1)).
  unfold Zdigits2. apply digits2_pos_le.
  pose proof (digits2_pos_upper p).
  rewrite Z.pow_add_r by lia. lia.
Qed.

Lemma shr_1_digits (mrs : shr_record) :
  0 <= shr_m mrs ->
  0 <= shr_m (shr_1 mrs) /\
  Zdigits2 (shr_m (shr_1 mrs)) = Z.max 0 (Zdigits2 (shr_m mrs) - 1).
Proof.
  destruct mrs as [m r s]. cbn [shr_m]. intros Hm.
  destruct m as [|[p|p|]|p]; cbn [shr_1 shr_m Zdigits2 digits2_pos];
    rewrite ?Pos2Z.inj_succ; lia.
Qed.

Lemma iter_shr_1_digits (n : positive) : forall mrs : shr_record,
  0 <= shr_m mrs ->
  0 <= shr_m (SpecFloat.iter_pos shr_1 n mrs) /\
  Zdigits2 (shr_m (SpecFloat.iter_pos shr_1 n mrs)) = Z.max 0 (Zdigits2 (shr_m mrs) - Zpos n).
Proof.
  induction n as [n IH|n IH|]; intros mrs Hm; simpl.
  - destruct (shr_1_digits mrs Hm) as [H0 E0].
    destruct (IH _ H0) as [H1 E1]. destruct (IH _ H1) as [H2 E2].
    split; [done|]. rewrite E2, E1, E0. lia.
  - destruct (IH _ Hm) as [H1 E1]. destruct (IH _ H1) as [H2 E2].
    split; [done|]. rewrite E2, E1. lia.
  - apply shr_1_digits; assumption.
Qed.

Lemma Zdigits2_nonneg (m : Z) : 0 <= Zdigits2 m.
Proof. destruct m; simpl; lia. Qed.

Lemma shr_digits (mrs : shr_record) (e n : Z) :
  0 <= shr_m mrs ->
  0 <= shr_m (fst (shr mrs e n)) /\
  snd (shr mrs e n) = e + Z.max 0 n /\
  Zdigits2 (shr_m (fst (shr mrs e n))) = Z.max 0 (Zdigits2 (shr_m mrs) - Z.max 0 n).
Proof.
  intros Hm. pose proof (Zdigits2_nonneg (shr_m mrs)).
  destruct n as [|p|p]; cbn [shr fst snd]; [lia| |lia].
  destruct (iter_shr_1_digits p mrs Hm) as [H1 E1]. lia.
Qed.

Lemma shr_record_of_loc_m (m : Z) (l : location) : shr_m (shr_record_of_loc m l) = m.
Proof. destruct l as [|[]]; reflexivity. Qed.

Lemma round_nearest_even_digits (m : Z) (l : location) :
  0 <= m ->
  0 <= round_nearest_even m l /\ Zdigits2 (round_nearest_even m l) <= Zdigits2 m + 1.
Proof.
  intros Hm. pose proof (Zdigits2_succ m Hm).
  destruct l as [|[]]; cbn [round_nearest_even]; try destruct (Z.even m); lia.
Qed.

(** Rounding to binary64 of a positive mantissa that is well inside the
    range neither overflows nor yields NaN, and keeps the sign. *)
Lemma binary_round_aux_finite (s : bool) (m : positive) (e : Z) (l : location) :
  Zpos (digits2_pos m) + e <= 1023 -> e <= 971 ->
  binary_round_aux 53 1024 s (Zpos m) e l = S754_zero s \/
  exists m' e',
    binary_round_aux 53 1024 s (Zpos m) e l = S754_finite s m' e' /\
    Zpos (digits2_pos m') + e' <= Z.max (Zpos (digits2_pos m) + e) (-1074) + 1 /\
    e' <= 971.
Proof.
  intros HD He. unfold binary_round_aux, shr_fexp.
  set (n1 := fexp 53 1024 (Zdigits2 (Zpos m) + e) - e).
  pose proof (shr_digits (shr_record_of_loc (Zpos m) l) e n1) as H1.
  rewrite shr_record_of_loc_m in H1. destruct H1 as (Hm1 & He1 & Hd1); [lia|].
  destruct (shr (shr_record_of_loc (Zpos m) l) e n1) as [mrs1 e1].
  cbn [fst snd] in Hm1, He1, Hd1.
  destruct (round_nearest_even_digits (shr_m mrs1) (loc_of_shr_record mrs1) Hm1)
    as [Hm2 Hd2].
  set (m2 := round_nearest_even (shr_m mrs1) (loc_of_shr_record mrs1)) in *.
  set (n2 := fexp 53 1024 (Zdigits2 m2 + e1) - e1).
  pose proof (shr_digits (shr_record_of_loc m2 loc_Exact) e1 n2) as H3.
  rewrite shr_record_of_loc_m in H3. destruct H3 as (Hm3 & He3 & Hd3); [lia|].
  destruct (shr (shr_record_of_loc m2 loc_Exact) e1 n2) as [mrs3 e3].
  cbn [fst snd] in Hm3, He3, Hd3.
  unfold fexp, emin in *. cbn [Zdigits2] in *.
  destruct (shr_m mrs3) as [|m3|m3]; [by left | right | lia].
  cbn [Zdigits2] in Hd3.
  assert (e3 <= 971) as He3' by lia.
  exists m3, e3. split; [|lia].
  destruct (Z.leb_spec e3 (1024 - 53)); [done|lia].
Qed.

Lemma digits2_pos_iter_xO (p d : positive) :
  Zpos (digits2_pos (Pos.iter xO p d)) = Zpos (digits2_pos p) + Zpos d.
Proof.
  induction d as [|d IH] using Pos.peano_ind.
  - cbn [Pos.iter digits2_pos]. lia.
  - rewrite Pos.iter_succ. cbn [digits2_pos]. lia.
Qed.

Lemma pow2_pos (k : Z) : 0 <= k -> 0 < 2 ^ k.
Proof. intros. apply Z.pow_pos_nonneg; lia. Qed.

Lemma shr_1_half (mrs : shr_record) :
  0 <= shr_m mrs -> shr_m (shr_1 mrs) = shr_m mrs / 2.
Proof.
  destruct mrs as [m r s]. cbn [shr_m]. intros Hm.
  destruct m as [|[p|p|]|p]; cbn [shr_1 shr_m]; [done| | |done|lia].
  - apply Z.div_unique with 1; lia.
  - apply Z.div_unique with 0; lia.
Qed.

Lemma iter_shr_1_quot (n : positive) : forall mrs : shr_record,
  0 <= shr_m mrs ->
  shr_m (SpecFloat.iter_pos shr_1 n mrs) = shr_m mrs / 2 ^ Zpos n.
Proof.
  induction n as [n IH|n IH|]; intros mrs Hm; simpl SpecFloat.iter_pos.
  - pose proof (shr_1_digits mrs Hm) as [H0 _].
    pose proof (iter_shr_1_digits n _ H0) as [H1 _].
    pose proof (pow2_pos (Zpos n) ltac:(lia)) as Hp.
    rewrite IH, IH, shr_1_half by done.
    rewrite !Z.div_div by lia. f_equal.
    rewrite Pos2Z.inj_xI, Z.pow_add_r, Z.pow_twice_r by lia.
    change (2 ^ 1) with 2. ring.
  - pose proof (iter_shr_1_digits n _ Hm) as [H1 _].
    pose proof (pow2_pos (Zpos n) ltac:(lia)) as Hp.
    rewrite IH, IH by done.
    rewrite !Z.div_div by lia. f_equal.
    rewrite Pos2Z.inj_xO. rewrite <- Z.pow_twice_r. done.
  - rewrite shr_1_half by done. done.
Qed.

Lemma shr_quot (mrs : shr_record) (e n : Z) :
  0 <= shr_m mrs ->
  shr_m (fst (shr mrs e n)) = shr_m mrs / 2 ^ Z.max 0 n.
Proof.
  intros Hm. destruct n as [|p|p]; cbn [shr fst].
  - by rewrite Z.div_1_r.
  - rewrite iter_shr_1_quot by done. f_equal.
  - by rewrite Z.div_1_r.
Qed.

Lemma round_nearest_even_le (m : Z) (l : location) : round_nearest_even m l <= m + 1.
Proof. destruct l as [|[]]; cbn [round_nearest_even]; try destruct (Z.even m); lia. Qed.

(** Rounding a positive mantissa to a format of precision [p]: the result is
    finite when the value is well inside the range, and exceeds the value by
    at most one unit of the exponent [e1] at which the mantissa is cut. *)
Lemma binary_round_aux_upper (p E : Z) (s : bool) (m : positive) (e : Z) (l : location) :
  0 < p ->
  Zpos (digits2_pos m) + e <= E - 1 -> e <= E - p -> 3 - E - p <= E - p ->
  binary_round_aux p E s (Zpos m) e l = S754_zero s \/
  exists m' e',
    binary_round_aux p E s (Zpos m) e l = S754_finite s m' e' /\
    Zpos (digits2_pos m') + e' <= Z.max (Zpos (digits2_pos m) + e) (3 - E - p) + 1 /\
    Z.max e (fexp p E (Zpos (digits2_pos m) + e)) <= e' /\
    e' <= Z.max (Z.max e (fexp p E (Zpos (digits2_pos m) + e)))
                (Zpos (digits2_pos m) + e + 1 - p) /\
    e' <= E - p /\
    Zpos m' * 2 ^ (e' - e)
      <= Zpos m + 2 ^ (Z.max e (fexp p E (Zpos (digits2_pos m) + e)) - e).
Proof.
  intros Hp HD He HE. unfold binary_round_aux, shr_fexp.
  set (n1 := fexp p E (Zdigits2 (Zpos m) + e) - e).
  pose proof (shr_digits (shr_record_of_loc (Zpos m) l) e n1) as H1.
  pose proof (shr_quot (shr_record_of_loc (Zpos m) l) e n1) as Q1.
  rewrite shr_record_of_loc_m in H1, Q1. destruct H1 as (Hm1 & He1 & Hd1); [lia|].
  specialize (Q1 ltac:(lia)).
  destruct (shr (shr_record_of_loc (Zpos m) l) e n1) as [mrs1 e1].
  cbn [fst snd] in Hm1, He1, Hd1, Q1.
  destruct (round_nearest_even_digits (shr_m mrs1) (loc_of_shr_record mrs1) Hm1)
    as [Hm2 Hd2].
  pose proof (round_nearest_even_le (shr_m mrs1) (loc_of_shr_record mrs1)) as Hr2.
  set (m2 := round_nearest_even (shr_m mrs1) (loc_of_shr_record mrs1)) in *.
  set (n2 := fexp p E (Zdigits2 m2 + e1) - e1).
  pose proof (shr_digits (shr_record_of_loc m2 loc_Exact) e1 n2) as H3.
  pose proof (shr_quot (shr_record_of_loc m2 loc_Exact) e1 n2) as Q3.
  rewrite shr_record_of_loc_m in H3, Q3. destruct H3 as (Hm3 & He3 & Hd3); [lia|].
  specialize (Q3 ltac:(lia)).
  destruct (shr (shr_record_of_loc m2 loc_Exact) e1 n2) as [mrs3 e3].
  cbn [fst snd] in Hm3, He3, Hd3, Q3.
  unfold fexp, emin in *. cbn [Zdigits2] in *.
  destruct (shr_m mrs3) as [|m3|m3] eqn:Em3; [by left | right | lia].
  cbn [Zdigits2] in Hd3.
  assert (e3 <= E - p) as He3' by lia.
  exists m3, e3. split; [|split_and!; try lia].
  { destruct (Z.leb_spec e3 (E - p)); [done|lia]. }
  (* the value *)
  set (k1 := Z.max 0 n1) in *. set (k2 := Z.max 0 n2) in *.
  assert (Hk1 : 0 <= k1) by lia. assert (Hk2 : 0 <= k2) by lia.
  replace (e3 - e) with (k2 + k1) by lia.
  replace (Z.max e (Z.max (Z.pos (digits2_pos m) + e - p) (3 - E - p)) - e) with k1 by lia.
  rewrite Z.pow_add_r by lia.
  pose proof (pow2_pos k1 Hk1) as P1. pose proof (pow2_pos k2 Hk2) as P2.
  pose proof (Z.mul_div_le m2 (2 ^ k2) P2) as D2.
  pose proof (Z.mul_div_le (Z.pos m) (2 ^ k1) P1) as D1.
  rewrite <- Q3 in D2. rewrite <- Q1 in D1. nia.
Qed.

Lemma round_nearest_even_ge (m : Z) (l : location) : m <= round_nearest_even m l.
Proof. destruct l as [|[]]; cbn [round_nearest_even]; try destruct (Z.even m); lia. Qed.

(** The same rounding from below: the value is less than the result plus two
    units of the exponent of the result. *)
Lemma binary_round_aux_lower (p E : Z) (s : bool) (m : positive) (e : Z) (l : location) :
  0 < p ->
  Zpos (digits2_pos m) + e <= E - 1 -> e <= E - p -> 3 - E - p <= E - p ->
  exists e',
    e <= e' /\
    e' <= Z.max (Z.max e (fexp p E (Zpos (digits2_pos m) + e)))
                (Zpos (digits2_pos m) + e + 1 - p) /\
    ((binary_round_aux p E s (Zpos m) e l = S754_zero s /\
      Zpos m < 2 * 2 ^ (e' - e)) \/
     exists m',
       binary_round_aux p E s (Zpos m) e l = S754_finite s m' e' /\
       Zpos m < (Zpos m' + 2) * 2 ^ (e' - e)).
Proof.
  intros Hp HD He HE. unfold binary_round_aux, shr_fexp.
  set (n1 := fexp p E (Zdigits2 (Zpos m) + e) - e).
  pose proof (shr_digits (shr_record_of_loc (Zpos m) l) e n1) as H1.
  pose proof (shr_quot (shr_record_of_loc (Zpos m) l) e n1) as Q1.
  rewrite shr_record_of_loc_m in H1, Q1. destruct H1 as (Hm1 & He1 & Hd1); [lia|].
  specialize (Q1 ltac:(lia)).
  destruct (shr (shr_record_of_loc (Zpos m) l) e n1) as [mrs1 e1].
  cbn [fst snd] in Hm1, He1, Hd1, Q1.
  destruct (round_nearest_even_digits (shr_m mrs1) (loc_of_shr_record mrs1) Hm1)
    as [Hm2 Hd2].
  pose proof (round_nearest_even_ge (shr_m mrs1) (loc_of_shr_record mrs1)) as Hr2.
  set (m2 := round_nearest_even (shr_m mrs1) (loc_of_shr_record mrs1)) in *.
  set (n2 := fexp p E (Zdigits2 m2 + e1) - e1).
  pose proof (shr_digits (shr_record_of_loc m2 loc_Exact) e1 n2) as H3.
  pose proof (shr_quot (shr_record_of_loc m2 loc_Exact) e1 n2) as Q3.
  rewrite shr_record_of_loc_m in H3, Q3. destruct H3 as (Hm3 & He3 & Hd3); [lia|].
  specialize (Q3 ltac:(lia)).
  destruct (shr (shr_record_of_loc m2 loc_Exact) e1 n2) as [mrs3 e3].
  cbn [fst snd] in Hm3, He3, Hd3, Q3.
  unfold fexp, emin in *. cbn [Zdigits2] in *.
  set (k1 := Z.max 0 n1) in *. set (k2 := Z.max 0 n2) in *.
  assert (Hk1 : 0 <= k1) by lia. assert (Hk2 : 0 <= k2) by lia.
  pose proof (pow2_pos k1 Hk1) as P1. pose proof (pow2_pos k2 Hk2) as P2.
  pose proof (Z.mul_succ_div_gt m2 (2 ^ k2) P2) as D2.
  pose proof (Z.mul_succ_div_gt (Z.pos m) (2 ^ k1) P1) as D1.
  rewrite <- Q3 in D2. rewrite <- Q1 in D1.
  assert (Hval : Zpos m < (shr_m mrs3 + 2) * 2 ^ (e3 - e)).
  { replace (e3 - e) with (k2 + k1) by lia. rewrite Z.pow_add_r by lia. nia. }
  exists e3. split; [lia|].
  destruct (shr_m mrs3) as [|m3|m3] eqn:Em3; [| |lia].
  - split; [lia|]. left. split; [done|lia].
  - cbn [Zdigits2] in Hd3. split; [lia|]. right. exists m3. split; [|done].
    destruct (Z.leb_spec e3 (E - p)); [done|lia].
Qed.

End BinaryRounding.


(** ** The heap monad *)

Section HeapMonad.
Import Py np PyM.

Lemma fresh_not_allocated (h : heap) : h !! fresh (dom h) = None.
Proof. apply not_elem_of_dom, is_fresh. Qed.

Lemma deref_Some (h : heap) l a : h !! l = Some a → deref l h = (Ok a, h).
Proof. unfold deref. by intros ->. Qed.

Lemma bind_Ok {A B} (c : py A) (k : A → py B) (h h' : heap) a :
  c h = (Ok a, h') → (c ≫= k) h = k a h'.
Proof. unfold mbind, py_bind. by intros ->. Qed.

End HeapMonad.

(** ** The Mask Applicator *)

Section MaskApplicator.
Import IEEE Py np PyM step5.

Implicit Types (h : heap) (s m r : ndarray) (t : spec_float).

Lemma masked_fill_lookup (mask : list bool) v (xs : list spec_float) k :
  masked_fill mask v xs !! k =
    b ← mask !! k; x ← xs !! k; Some (if b : bool then v else x).
Proof.
  unfold masked_fill. rewrite lookup_zip_with.
  destruct (mask !! k); simpl; [|done]. by destruct (xs !! k).
Qed.

Lemma masked_fill_length (mask : list bool) v (xs : list spec_float) :
  length mask = length xs → length (masked_fill mask v xs) = length xs.
Proof. intros Hl. unfold masked_fill. rewrite length_zip_with. lia. Qed.

Lemma masked_value_well_formed s m t :
  well_formed s → well_formed m → shape s = shape m →
  well_formed (masked_value s m t).
Proof.
  unfold well_formed. intros Hs Hm Hsh. simpl.
  rewrite masked_fill_length; [done|].
  unfold lt_scalar. rewrite length_fmap. congruence.
Qed.

(** What a call does to the heap when the shapes agree: one new object, the
    masked copy, and nothing else. *)
Lemma create_masked_stipple_run h ls lm s m t :
  h !! ls = Some s → h !! lm = Some m → shape s = shape m →
  create_masked_stipple ls lm t h
    = (Ok (fresh (dom h)), <[fresh (dom h) := masked_value s m t]> h).
Proof.
  intros Hs Hm Hsh. unfold create_masked_stipple.
  rewrite (bind_Ok _ _ h h s) by by apply deref_Some.
  rewrite (bind_Ok _ _ h h m) by by apply deref_Some.
  rewrite decide_False by (intros Hne; by apply Hne).
  unfold ndarray_copy, setitem_mask, mbind, py_bind, mret, py_ret, deref, alloc, store.
  rewrite Hs. rewrite !lookup_insert_eq. rewrite insert_insert_eq. done.
Qed.

Lemma create_masked_stipple_mismatch h ls lm s m t :
  h !! ls = Some s → h !! lm = Some m → shape s ≠ shape m →
  create_masked_stipple ls lm t h = (Raise (ValueError (shape_mismatch_msg s m)), h).
Proof.
  intros Hs Hm Hsh. unfold create_masked_stipple.
  rewrite (bind_Ok _ _ h h s) by by apply deref_Some.
  rewrite (bind_Ok _ _ h h m) by by apply deref_Some.
  by rewrite decide_True.
Qed.

Lemma getitem_in_bounds s i j :
  well_formed s → (i < (shape s).1)%nat → (j < (shape s).2)%nat →
  ∃ x, getitem s i j = Some x ∧ data s !! (i * (shape s).2 + j)%nat = Some x.
Proof.
  unfold well_formed, size_of, getitem. intros Hwf Hi Hj.
  rewrite decide_True by done.
  destruct (lookup_lt_is_Some_2 (data s) (i * (shape s).2 + j)%nat) as [x Hx]; [nia|].
  eauto.
Qed.

Lemma getitem_Some_bounds s i j x :
  getitem s i j = Some x → (i < (shape s).1)%nat ∧ (j < (shape s).2)%nat.
Proof. unfold getitem. by case_decide. Qed.

Lemma getitem_masked_value s m t i j x y :
  shape s = shape m →
  getitem s i j = Some x → getitem m i j = Some y →
  getitem (masked_value s m t) i j
    = Some (if SFltb y (as_dtype (dtype_of m) t) then one else x).
Proof.
  unfold getitem; simpl. intros Hsh. rewrite <- Hsh.
  case_decide; [|done]. intros Hx Hy.
  rewrite masked_fill_lookup. unfold lt_scalar.
  rewrite list_lookup_fmap, Hy, Hx. done.
Qed.

(** C1, as the code has it.  For a sampled image [s] and a mask [m] of the
    same shape and any threshold [t], the call returns a new image [r] of
    that shape and of the dtype of [s].  The mask is compared with [t]
    converted to the dtype of the mask, [t'] (which is [t] itself for a
    float64 mask): [r[i,j] = 1.0] where [m[i,j] < t'] and [r[i,j] = s[i,j]]
    otherwise.  A mask value equal to [t'] (the same value, or numerically
    equal to it) preserves the pixel, and so does a mask value that is [t]
    itself. *)
Theorem create_masked_stipple_pixels h ls lm s m t :
  h !! ls = Some s → h !! lm = Some m →
  well_formed s → well_formed m → shape s = shape m →
  ∃ l r h',
    create_masked_stipple ls lm t h = (Ok l, h') ∧ h' !! l = Some r ∧
    dtype_of r = dtype_of s ∧ shape r = shape s ∧ well_formed r ∧
    (dtype_of m = float64 → as_dtype (dtype_of m) t = t) ∧
    (∀ i j, (i < (shape s).1)%nat → (j < (shape s).2)%nat →
       ∃ x y, getitem s i j = Some x ∧ getitem m i j = Some y ∧
              getitem r i j
                = Some (if SFltb y (as_dtype (dtype_of m) t) then one else x)) ∧
    (∀ i j y, getitem m i j = Some y →
       y = as_dtype (dtype_of m) t ∨ SFeqb y (as_dtype (dtype_of m) t) = true ∨
       (y = t ∧ as_dtype (dtype_of m) y = y) →
       getitem r i j = getitem s i j).
Proof.
  intros Hs Hm Hwfs Hwfm Hsh.
  exists (fresh (dom h)), (masked_value s m t), (<[fresh (dom h) := masked_value s m t]> h).
  assert (Hpix : ∀ i j, (i < (shape s).1)%nat → (j < (shape s).2)%nat →
       ∃ x y, getitem s i j = Some x ∧ getitem m i j = Some y ∧
              getitem (masked_value s m t) i j
                = Some (if SFltb y (as_dtype (dtype_of m) t) then one else x)).
  { intros i j Hi Hj.
    destruct (getitem_in_bounds s i j) as (x & Hx & _); [done..|].
    destruct (getitem_in_bounds m i j) as (y & Hy & _); [done|by rewrite <- Hsh..|].
    exists x, y. split_and!; [done..|]. by apply getitem_masked_value. }
  split_and!.
  - by apply create_masked_stipple_run.
  - apply lookup_insert_eq.
  - done.
  - done.
  - by apply masked_value_well_formed.
  - by intros ->.
  - done.
  - intros i j y Hy Heq.
    destruct (getitem_Some_bounds m i j y Hy) as [Hi Hj]. rewrite <- Hsh in Hi, Hj.
    destruct (Hpix i j Hi Hj) as (x & y' & Hx & Hy' & Hr).
    rewrite Hr, Hx. rewrite Hy in Hy'. injection Hy' as <-.
    assert (SFltb y (as_dtype (dtype_of m) t) = false) as ->; [|done].
    destruct Heq as [->|[Heq|[<- Hrep]]].
    + apply SFltb_irrefl.
    + by apply SFeqb_not_ltb.
    + rewrite Hrep. apply SFltb_irrefl.
Qed.

(** C2. The call raises exactly when the two shapes differ.  With equal
    shapes it returns a new image of that shape; with different shapes it
    raises a ValueError whose message names both shapes, and allocates
    nothing. *)
Theorem create_masked_stipple_raises_iff_shapes_differ h ls lm s m t :
  h !! ls = Some s → h !! lm = Some m →
  (shape s = shape m →
     ∃ l r, create_masked_stipple ls lm t h = (Ok l, <[l := r]> h) ∧
            h !! l = None ∧ shape r = shape s ∧ shape r = shape m) ∧
  (shape s ≠ shape m →
     create_masked_stipple ls lm t h =
       (Raise (ValueError ("Images must have the same shape. stipple_img: "
                           +:+ shape_repr (shape s) +:+ ", mask_img: "
                           +:+ shape_repr (shape m))), h)) ∧
  ((∃ e h', create_masked_stipple ls lm t h = (Raise e, h')) ↔ shape s ≠ shape m).
Proof.
  intros Hs Hm. split_and!.
  - intros Hsh. exists (fresh (dom h)), (masked_value s m t). split_and!.
    + by apply create_masked_stipple_run.
    + apply fresh_not_allocated.
    + done.
    + done.
  - intros Hsh. by rewrite (create_masked_stipple_mismatch h ls lm s m t).
  - split.
    + intros (e & h' & Hrun) Hsh.
      rewrite (create_masked_stipple_run h ls lm s m t) in Hrun by done. done.
    + intros Hsh. eexists _, _. by apply create_masked_stipple_mismatch.
Qed.

(** C3. Whatever the call does, every array that existed before it,
    [s] and [m] among them (also when they are one object), is unchanged after
    it; a returned array is a new object, different from both arguments; and
    a call that raises leaves the heap as it was. *)
Theorem create_masked_stipple_fresh_result_inputs_unchanged h ls lm s m t :
  h !! ls = Some s → h !! lm = Some m →
  ∃ res h',
    create_masked_stipple ls lm t h = (res, h') ∧
    h' !! ls = Some s ∧ h' !! lm = Some m ∧
    (∀ l a, h !! l = Some a → h' !! l = Some a) ∧
    match res with
    | Ok l => (l ∉ dom h) ∧ l ≠ ls ∧ l ≠ lm ∧ is_Some (h' !! l) ∧
              (∀ l', l' ≠ l → h' !! l' = h !! l')
    | Raise _ => h' = h
    | Dangling => False
    end.
Proof.
  intros Hs Hm. destruct (decide (shape s = shape m)) as [Hsh|Hsh].
  - set (l := fresh (dom h)).
    assert (Hl : h !! l = None) by apply fresh_not_allocated.
    assert (Hfr : ∀ l' a, h !! l' = Some a → l ≠ l') by (intros l' a Ha ->; congruence).
    exists (Ok l), (<[l := masked_value s m t]> h). split_and!.
    + by apply create_masked_stipple_run.
    + rewrite lookup_insert_ne; eauto.
    + rewrite lookup_insert_ne; eauto.
    + intros l' a Ha. rewrite lookup_insert_ne; eauto.
    + by apply not_elem_of_dom.
    + intros ->. congruence.
    + intros ->. congruence.
    + rewrite lookup_insert_eq. eauto.
    + intros l' Hne. by rewrite lookup_insert_ne.
  - exists (Raise (ValueError (shape_mismatch_msg s m))), h. split_and!; try done.
    by apply create_masked_stipple_mismatch.
Qed.

Lemma masked_fill_idemp (mask : list bool) v (xs : list spec_float) :
  masked_fill mask v (masked_fill mask v xs) = masked_fill mask v xs.
Proof.
  apply list_eq. intros k. rewrite !masked_fill_lookup.
  destruct (mask !! k) as [[]|], (xs !! k); done.
Qed.

Lemma masked_fill_comm (mask1 mask2 : list bool) v (xs : list spec_float) :
  masked_fill mask2 v (masked_fill mask1 v xs)
    = masked_fill mask1 v (masked_fill mask2 v xs).
Proof.
  apply list_eq. intros k. rewrite !masked_fill_lookup.
  destruct (mask1 !! k) as [[]|], (mask2 !! k) as [[]|], (xs !! k); done.
Qed.

Lemma masked_value_idemp s m t :
  masked_value (masked_value s m t) m t = masked_value s m t.
Proof. unfold masked_value; simpl. by rewrite masked_fill_idemp. Qed.

Lemma masked_value_comm s m1 m2 t :
  masked_value (masked_value s m1 t) m2 t = masked_value (masked_value s m2 t) m1 t.
Proof. unfold masked_value; simpl. by rewrite masked_fill_comm. Qed.

(** Two calls in a row, the second on the result of the first. *)
Lemma create_masked_stipple_twice_run h ls l1 l2 s m1 m2 t :
  h !! ls = Some s → h !! l1 = Some m1 → h !! l2 = Some m2 →
  shape s = shape m1 → shape s = shape m2 →
  ∃ l h',
    (x ← create_masked_stipple ls l1 t; create_masked_stipple x l2 t) h = (Ok l, h') ∧
    h' !! l = Some (masked_value (masked_value s m1 t) m2 t) ∧
    h' !! fresh (dom h) = Some (masked_value s m1 t).
Proof.
  intros Hs H1 H2 Hsh1 Hsh2.
  set (la := fresh (dom h)). set (ha := <[la := masked_value s m1 t]> h).
  assert (Hla : h !! la = None) by apply fresh_not_allocated.
  assert (ha !! la = Some (masked_value s m1 t)) by apply lookup_insert_eq.
  assert (ha !! l2 = Some m2).
  { unfold ha. rewrite lookup_insert_ne; [done|]. intros ->. congruence. }
  assert (Hlb : ha !! fresh (dom ha) = None) by apply fresh_not_allocated.
  exists (fresh (dom ha)), (<[fresh (dom ha) := masked_value (masked_value s m1 t) m2 t]> ha).
  split_and!.
  - rewrite (bind_Ok _ _ h ha la) by by apply create_masked_stipple_run.
    by apply create_masked_stipple_run.
  - apply lookup_insert_eq.
  - rewrite lookup_insert_ne; [done|]. intros Heq. rewrite Heq in Hlb. congruence.
Qed.

(** C4. Applying the same mask and threshold to the result of a call gives
    an image equal to that result. *)
Theorem create_masked_stipple_idempotent h ls lm s m t :
  h !! ls = Some s → h !! lm = Some m → shape s = shape m →
  ∃ l1 h1 r l2 h2,
    create_masked_stipple ls lm t h = (Ok l1, h1) ∧ h1 !! l1 = Some r ∧
    create_masked_stipple l1 lm t h1 = (Ok l2, h2) ∧
    h2 !! l2 = Some r ∧ h2 !! l1 = Some r.
Proof.
  intros Hs Hm Hsh.
  set (l1 := fresh (dom h)). set (r := masked_value s m t). set (h1 := <[l1 := r]> h).
  assert (Hl1 : h !! l1 = None) by apply fresh_not_allocated.
  assert (Hr : h1 !! l1 = Some r) by apply lookup_insert_eq.
  assert (Hm1 : h1 !! lm = Some m).
  { unfold h1. rewrite lookup_insert_ne; [done|]. intros ->. congruence. }
  assert (Hl2 : h1 !! fresh (dom h1) = None) by apply fresh_not_allocated.
  exists l1, h1, r, (fresh (dom h1)), (<[fresh (dom h1) := r]> h1). split_and!.
  - by apply create_masked_stipple_run.
  - done.
  - rewrite (create_masked_stipple_run h1 l1 lm r m t); [|done..].
    + unfold r. by rewrite masked_value_idemp.
  - apply lookup_insert_eq.
  - rewrite lookup_insert_ne; [done|]. intros Heq. rewrite Heq in Hl2. congruence.
Qed.

(** C10, as the code has it.  Applying two masks commutes: both orders end in
    the same image.  Each mask is compared with the threshold converted to
    its own dtype, and the image is 1.0 exactly where one of the masks is
    below its converted threshold, and the sampled image elsewhere. *)
Theorem create_masked_stipple_commutes h ls l1 l2 s m1 m2 t :
  h !! ls = Some s → h !! l1 = Some m1 → h !! l2 = Some m2 →
  well_formed s → well_formed m1 → well_formed m2 →
  shape s = shape m1 → shape s = shape m2 →
  ∃ la ha lb hb r,
    (x ← create_masked_stipple ls l1 t; create_masked_stipple x l2 t) h = (Ok la, ha) ∧
    (x ← create_masked_stipple ls l2 t; create_masked_stipple x l1 t) h = (Ok lb, hb) ∧
    ha !! la = Some r ∧ hb !! lb = Some r ∧ shape r = shape s ∧
    ∀ i j, (i < (shape s).1)%nat → (j < (shape s).2)%nat →
      ∃ x y1 y2,
        getitem s i j = Some x ∧ getitem m1 i j = Some y1 ∧ getitem m2 i j = Some y2 ∧
        getitem r i j
          = Some (if SFltb y1 (as_dtype (dtype_of m1) t) || SFltb y2 (as_dtype (dtype_of m2) t)
                  then one else x).
Proof.
  intros Hs H1 H2 Hwfs Hwf1 Hwf2 Hsh1 Hsh2.
  destruct (create_masked_stipple_twice_run h ls l1 l2 s m1 m2 t)
    as (la & ha & Hruna & Ha & _); [done..|].
  destruct (create_masked_stipple_twice_run h ls l2 l1 s m2 m1 t)
    as (lb & hb & Hrunb & Hb & _); [done..|].
  exists la, ha, lb, hb, (masked_value (masked_value s m1 t) m2 t). split_and!.
  - done.
  - done.
  - done.
  - by rewrite masked_value_comm.
  - done.
  - intros i j Hi Hj.
    destruct (getitem_in_bounds s i j) as (x & Hx & _); [done..|].
    destruct (getitem_in_bounds m1 i j) as (y1 & Hy1 & _); [done|by rewrite <- Hsh1..|].
    destruct (getitem_in_bounds m2 i j) as (y2 & Hy2 & _); [done|by rewrite <- Hsh2..|].
    exists x, y1, y2. split_and!; [done..|].
    rewrite (getitem_masked_value _ m2 t i j
               (if SFltb y1 (as_dtype (dtype_of m1) t) then one else x) y2);
      [|done|by apply getitem_masked_value|done].
    by destruct (SFltb y1 _), (SFltb y2 _).
Qed.

End MaskApplicator.

(** ** The Mask Synthesizer *)

Section FontSize.
Import IEEE Py step4.

(** float(n) for a positive int well inside the binary64 range is a finite,
    non-negative value. *)
Lemma of_Z_finite (n k : Z) :
  0 < n < 2 ^ k → k ≤ 1022 →
  of_Z n = S754_zero false ∨
  ∃ m e, of_Z n = S754_finite false m e ∧
         Zpos (digits2_pos m) + e ≤ k + 1 ∧ e ≤ 971.
Proof.
  intros [Hn0 Hnk] Hk. destruct n as [|p|p]; [lia| |lia].
  pose proof (digits2_pos_le p k Hnk) as Hd.
  unfold of_Z, binary_normalize, binary_round, shl_align.
  set (e0 := fexp 53 1024 (Zpos (digits2_pos p) + 0)).
  assert (He0 : e0 = Z.max (Zpos (digits2_pos p) - 53) (-1074)).
  { unfold e0, fexp, emin. f_equal; lia. }
  destruct (e0 - 0) as [|d|d] eqn:Hsub.
  - destruct (binary_round_aux_finite false p 0 loc_Exact) as [Hz|(m & e & Hr & Hb & He)];
      [lia..|by left|].
    right. exists m, e. split_and!; [done|lia|done].
  - destruct (binary_round_aux_finite false p 0 loc_Exact) as [Hz|(m & e & Hr & Hb & He)];
      [lia..|by left|].
    right. exists m, e. split_and!; [done|lia|done].
  - pose proof (digits2_pos_iter_xO p d) as Hsh.
    destruct (binary_round_aux_finite false (Pos.iter xO p d) e0 loc_Exact)
      as [Hz|(m & e & Hr & Hb & He)]; [lia..|by left|].
    right. exists m, e. split_and!; [done|lia|done].
Qed.

(** A valid binary64 value in (0, 1] has a mantissa of at most 53 bits and
    an exponent of at most -52. *)
Lemma ratio_in_unit_finite (r : spec_float) :
  valid_binary 53 1024 r = true → SFltb zero r = true → SFleb r one = true →
  ∃ m e, r = S754_finite false m e ∧ Zpos (digits2_pos m) ≤ 53 ∧ e ≤ -52.
Proof.
  intros Hv Hpos Hle. destruct r as [s|s| |s m e]; try done.
  - by destruct s.
  - destruct s; [done|]. exists m, e. split; [done|].
    unfold valid_binary, bounded, canonical_mantissa, fexp, emin in Hv.
    apply andb_prop in Hv as [Hc _]. apply Z.eqb_eq in Hc.
    unfold SFleb, SFcompare, one in Hle.
    destruct (Z.compare_spec e (-52)); [lia|lia|done].
Qed.

(** The product of a finite non-negative binary64 value of moderate size
    and a ratio in (0, 1] is finite and non-negative. *)
Lemma SFmul_ratio_finite (x r : spec_float) (k : Z) :
  (x = S754_zero false ∨
   ∃ m e, x = S754_finite false m e ∧ Zpos (digits2_pos m) + e ≤ k ∧ e ≤ 971) →
  k ≤ 1022 →
  valid_binary 53 1024 r = true → SFltb zero r = true → SFleb r one = true →
  SFmul 53 1024 x r = S754_zero false ∨ ∃ m e, SFmul 53 1024 x r = S754_finite false m e.
Proof.
  intros Hx Hk Hv Hpos Hle.
  destruct (ratio_in_unit_finite r Hv Hpos Hle) as (my & ey & -> & Hdy & Hey).
  destruct Hx as [->|(mx & ex & -> & Hdx & Hex)]; [by left|].
  cbn [SFmul xorb].
  pose proof (digits2_pos_mul mx my) as Hd.
  destruct (binary_round_aux_finite false (mx * my) (ex + ey) loc_Exact)
    as [Hz|(m & e & Hr & _)]; [lia..|by left|].
  right. by exists m, e.
Qed.

(** On a non-negative finite value, truncation is the floor. *)
Lemma trunc_floor_nonneg (x : spec_float) :
  x = S754_zero false ∨ (∃ m e, x = S754_finite false m e) →
  trunc x = Qfloor (to_Q x) ∧ 0 ≤ trunc x.
Proof.
  intros [->|(m & e & ->)]; [done|].
  cbn [trunc to_Q cond_Zopp]. case_decide as He.
  - rewrite Qfloor_Z, Z.shiftl_mul_pow2 by done. split; [done|].
    apply Z.mul_nonneg_nonneg; [lia|]. by apply Z.pow_nonneg.
  - assert (0 < 2 ^ (- e)) by (apply Z.pow_pos_nonneg; lia).
    assert (Hs : Z.shiftl (Zpos m) e = Zpos m `div` 2 ^ (- e)).
    { rewrite <- Z.shiftr_div_pow2 by lia. rewrite <- Z.shiftl_opp_r.
      by rewrite Z.opp_involutive. }
    cbn [Qfloor]. rewrite Z2Pos.id, Hs by done. split; [done|].
    apply Z.div_pos; lia.
Qed.

(** The size requested from the font files is the floor of the product
    [min(height, width) * font_size_ratio], computed in binary64. *)
Lemma font_size_of_floor (height width : Z) (r : spec_float) :
  0 < height → 0 < width → Z.min height width < 2 ^ 1000 →
  valid_binary 53 1024 r = true → SFltb zero r = true → SFleb r one = true →
  font_size_of height width r
    = Ok (Qfloor (to_Q (SFmul 53 1024 (of_Z (Z.min height width)) r))) ∧
  0 ≤ Qfloor (to_Q (SFmul 53 1024 (of_Z (Z.min height width)) r)).
Proof.
  intros Hh Hw Hmin Hv Hpos Hle.
  pose proof (of_Z_finite (Z.min height width) 1000) as Hx.
  destruct Hx as [Hx|Hx]; [lia..| |].
  - assert (Hm := SFmul_ratio_finite (of_Z (Z.min height width)) r 1001
                    (or_introl Hx) ltac:(lia) Hv Hpos Hle).
    destruct (trunc_floor_nonneg _ Hm) as [Ht Ht0].
    unfold font_size_of, float_of_int. rewrite Hx. rewrite <- Hx, <- Ht.
    split; [|done]. by destruct Hm as [->|(m & e & ->)].
  - assert (Hm := SFmul_ratio_finite (of_Z (Z.min height width)) r 1001
                    (or_intror Hx) ltac:(lia) Hv Hpos Hle).
    destruct (trunc_floor_nonneg _ Hm) as [Ht Ht0].
    destruct Hx as (mx & ex & Hx & _).
    unfold font_size_of, float_of_int. rewrite Hx. rewrite <- Hx, <- Ht.
    split; [|done]. by destruct Hm as [->|(m & e & ->)].
Qed.

End FontSize.

(** ** The rational value of a rounded product *)

Section RationalValue.
Import IEEE.
Local Open Scope Q_scope.

Lemma Qpow2_pos (e : Z) : 0 < 2 ^ e.
Proof. by apply Qpower_0_lt. Qed.

Lemma Qpow2_add (a b : Z) : 2 ^ (a + b) == 2 ^ a * 2 ^ b.
Proof. by apply Qpower_plus. Qed.

Lemma Qpow2_le (a b : Z) : (a <= b)%Z -> 2 ^ a <= 2 ^ b.
Proof. intros. by apply Qpower_le_compat_l. Qed.

Lemma Qpow2_inj (k : Z) : (0 <= k)%Z -> inject_Z (2 ^ k) == 2 ^ k.
Proof. intros. by rewrite Zpower_Qpower. Qed.

Lemma to_Q_finite (m : positive) (e : Z) :
  to_Q (S754_finite false m e) == inject_Z (Zpos m) * 2 ^ e.
Proof.
  cbn [to_Q cond_Zopp]. case_decide as He.
  - by rewrite inject_Z_mult, Qpow2_inj.
  - assert (0 < 2 ^ (- e))%Z as Hp by (apply Z.pow_pos_nonneg; lia).
    rewrite Qmake_Qdiv, Z2Pos.id by done.
    assert (Hinv : 2 ^ e == / 2 ^ (- e)).
    { rewrite <- Qpower_opp. by rewrite Z.opp_involutive. }
    rewrite Qpow2_inj, Hinv by lia. reflexivity.
Qed.

Lemma to_Q_nonneg (x : spec_float) :
  x = S754_zero false \/ (exists m e, x = S754_finite false m e) -> 0 <= to_Q x.
Proof.
  intros [->|(m & e & ->)]; [done|]. rewrite to_Q_finite.
  pose proof (Qpow2_pos e). apply Qmult_le_0_compat; [|lra].
  change 0 with (inject_Z 0). rewrite <- Zle_Qle. lia.
Qed.

Lemma scaled_le_Q (m' m e' e e1 : Z) :
  (e <= e')%Z -> (e <= e1)%Z ->
  (m' * 2 ^ (e' - e) <= m + 2 ^ (e1 - e))%Z ->
  inject_Z m' * 2 ^ e' <= inject_Z m * 2 ^ e + 2 ^ e1.
Proof.
  intros He' He1 Hle. rewrite Zle_Qle in Hle.
  rewrite inject_Z_plus, inject_Z_mult, !Qpow2_inj in Hle by lia.
  replace e' with ((e' - e) + e)%Z at 1 by lia.
  replace e1 with ((e1 - e) + e)%Z at 1 by lia.
  rewrite !Qpow2_add. pose proof (Qpow2_pos e) as Hpos.
  set (a := 2 ^ (e' - e)) in *. set (b := 2 ^ (e1 - e)) in *. set (c := 2 ^ e) in *.
  nra.
Qed.

Lemma iter_xO_value (m d : positive) : Zpos (Pos.iter xO m d) = (Zpos m * 2 ^ Zpos d)%Z.
Proof.
  induction d as [|d IH] using Pos.peano_ind.
  - cbn [Pos.iter]. lia.
  - rewrite Pos.iter_succ, Pos2Z.inj_xO, IH, Pos2Z.inj_succ, Z.pow_succ_r by lia. ring.
Qed.

(** Rounding of a positive value to the format of precision [p]: finite,
    non-negative and above the value by at most one unit in the last
    place. *)
Lemma binary_normalize_upper (p E : Z) (m : positive) (e : Z) :
  (0 < p)%Z -> (Zpos (digits2_pos m) + e <= E - 1)%Z -> (3 - E - p <= E - p)%Z ->
  (binary_normalize p E (Zpos m) e false = S754_zero false \/
   exists m' e',
     binary_normalize p E (Zpos m) e false = S754_finite false m' e' /\
     (Zpos (digits2_pos m') + e' <= Z.max (Zpos (digits2_pos m) + e) (3 - E - p) + 1)%Z /\
     (e' <= fexp p E (Zpos (digits2_pos m) + e) + 1)%Z) /\
  to_Q (binary_normalize p E (Zpos m) e false)
    <= inject_Z (Zpos m) * 2 ^ e + 2 ^ fexp p E (Zpos (digits2_pos m) + e).
Proof.
  intros Hp HD HE. unfold binary_normalize, binary_round, shl_align.
  set (D := Zpos (digits2_pos m)) in *.
  set (f := fexp p E (D + e)).
  assert (Hf : f = Z.max (D + e - p) (3 - E - p)) by reflexivity.
  pose proof (Qpow2_pos f) as Hfpos.
  assert (Hgen : forall mz ez,
    (Zpos (digits2_pos mz) + ez = D + e)%Z -> (ez <= f)%Z ->
    inject_Z (Zpos mz) * 2 ^ ez == inject_Z (Zpos m) * 2 ^ e ->
    (binary_round_aux p E false (Zpos mz) ez loc_Exact = S754_zero false \/
     exists m' e',
       binary_round_aux p E false (Zpos mz) ez loc_Exact = S754_finite false m' e' /\
       (Zpos (digits2_pos m') + e' <= Z.max (D + e) (3 - E - p) + 1)%Z /\
       (e' <= f + 1)%Z) /\
    to_Q (binary_round_aux p E false (Zpos mz) ez loc_Exact)
      <= inject_Z (Zpos m) * 2 ^ e + 2 ^ f).
  { intros mz ez Hdz Hez Hval.
    destruct (binary_round_aux_upper p E false mz ez loc_Exact)
      as [Hz|(m' & e' & Hr & Hd' & Hlo & Hhi & _ & Hv)]; [lia..| |].
    - rewrite Hz. split; [by left|]. cbn [to_Q].
      assert (0 <= inject_Z (Zpos m) * 2 ^ e).
      { rewrite <- to_Q_finite. apply to_Q_nonneg. right; eauto. }
      lra.
    - rewrite Hr. rewrite Hdz in *. fold f in Hlo, Hhi, Hv.
      split.
      + right. exists m', e'. split; [done|]. lia.
      + rewrite to_Q_finite, <- Hval.
        replace (Z.max ez f) with f in * by lia.
        apply scaled_le_Q; [lia|lia|done]. }
  destruct (f - e)%Z as [|d|d] eqn:Hsub.
  - apply Hgen; [done|lia|reflexivity].
  - apply Hgen; [done|lia|reflexivity].
  - apply Hgen.
    + rewrite digits2_pos_iter_xO. fold D. lia.
    + lia.
    + assert (Hee : 2 ^ e == 2 ^ Zpos d * 2 ^ f).
      { rewrite <- Qpow2_add. replace (Zpos d + f)%Z with e by lia. reflexivity. }
      rewrite iter_xO_value, inject_Z_mult, Qpow2_inj, Hee by lia. ring.
Qed.


(** A value in [0, 1] is a zero, or a positive value of at most one. *)
Lemma unit_value (x : spec_float) :
  valid_binary 53 1024 x = true -> in_unit x = true ->
  (exists s, x = S754_zero s) \/
  exists m e, x = S754_finite false m e /\
    (Zpos (digits2_pos m) + e <= 1)%Z /\ inject_Z (Zpos m) * 2 ^ e <= 1.
Proof.
  intros Hv Hu. apply andb_prop in Hu as [H0 H1].
  destruct x as [s|s| |s m e]; [left; eauto|by destruct s|done|].
  destruct s; [done|]. right. exists m, e. split; [reflexivity|].
  unfold valid_binary, bounded, canonical_mantissa, fexp, emin in Hv.
  apply andb_prop in Hv as [Hc _]. apply Z.eqb_eq in Hc.
  pose proof (digits2_pos_upper m) as Hup.
  assert (H53 : (2 ^ Zpos (digits2_pos m) <= 2 ^ 53)%Z) by (apply Z.pow_le_mono_r; lia).
  assert (Hm : (Zpos m <= 2 ^ (- e))%Z /\ (Zpos (digits2_pos m) + e <= 1)%Z).
  { unfold SFleb, SFcompare, one in H1.
    destruct (Z.compare_spec e (-52)) as [He|Hlt|Hgt]; [| |discriminate H1].
    - rewrite Pos.compare_cont_spec in H1.
      assert (Hle : (Zpos m <= 2 ^ 52)%Z).
      { destruct (Pos.compare_spec m 4503599627370496%positive) as [Heq|Hl|Hg];
          [|  |discriminate H1].
        - rewrite Heq. apply Z.le_refl.
        - apply Z.lt_le_incl. exact Hl. }
      split; [rewrite He; exact Hle|lia].
    - split; [|lia].
      assert (2 ^ 53 <= 2 ^ (- e))%Z by (apply Z.pow_le_mono_r; lia).
      lia. }
  destruct Hm as [Hm Hd]. split; [exact Hd|].
  rewrite Zle_Qle, Qpow2_inj in Hm by lia.
  assert (Hone : 2 ^ (- e) * 2 ^ e == 1).
  { rewrite <- Qpow2_add. by replace (- e + e)%Z with 0%Z by lia. }
  pose proof (Qpow2_pos e). pose proof (Qpow2_pos (- e)).
  set (a := 2 ^ (- e)) in *. set (b := 2 ^ e) in *.
  apply Qle_trans with (a * b); [|by rewrite Hone].
  apply Qmult_le_compat_r; [exact Hm|by apply Qlt_le_weak].
Qed.

Lemma round_aux_upper_Q (p E : Z) (m : positive) (e : Z) :
  (0 < p)%Z -> (Zpos (digits2_pos m) + e <= E - 1)%Z -> (e <= E - p)%Z ->
  (3 - E - p <= E - p)%Z ->
  (binary_round_aux p E false (Zpos m) e loc_Exact = S754_zero false \/
   exists m' e',
     binary_round_aux p E false (Zpos m) e loc_Exact = S754_finite false m' e' /\
     (Zpos (digits2_pos m') + e' <= Z.max (Zpos (digits2_pos m) + e) (3 - E - p) + 1)%Z) /\
  to_Q (binary_round_aux p E false (Zpos m) e loc_Exact)
    <= inject_Z (Zpos m) * 2 ^ e
       + 2 ^ Z.max e (fexp p E (Zpos (digits2_pos m) + e)).
Proof.
  intros Hp HD He HE.
  pose proof (Qpow2_pos (Z.max e (fexp p E (Zpos (digits2_pos m) + e)))) as Hpos.
  assert (0 <= inject_Z (Zpos m) * 2 ^ e) as Hnn.
  { rewrite <- to_Q_finite. apply to_Q_nonneg. right; eauto. }
  destruct (binary_round_aux_upper p E false m e loc_Exact)
    as [Hz|(m' & e' & Hr & Hd' & Hlo & Hhi & _ & Hv)]; [lia..| |].
  - rewrite Hz. split; [by left|]. cbn [to_Q]. lra.
  - rewrite Hr. split; [right; eauto|].
    rewrite to_Q_finite. apply scaled_le_Q; [lia|lia|done].
Qed.

Lemma scaled_lt_Q (m M e' e : Z) :
  (e <= e')%Z -> (m < (M + 2) * 2 ^ (e' - e))%Z ->
  inject_Z m * 2 ^ e < inject_Z M * 2 ^ e' + 2 * 2 ^ e'.
Proof.
  intros He' Hlt. rewrite Zlt_Qlt in Hlt.
  rewrite inject_Z_mult, inject_Z_plus, !Qpow2_inj in Hlt by lia.
  replace e' with ((e' - e) + e)%Z at 1 2 by lia.
  rewrite !Qpow2_add. pose proof (Qpow2_pos e) as Hpos.
  set (a := 2 ^ (e' - e)) in *. set (c := 2 ^ e) in *.
  change (inject_Z 2) with 2 in Hlt. nra.
Qed.

Lemma round_aux_lower_Q (p E : Z) (m : positive) (e : Z) :
  (0 < p)%Z -> (Zpos (digits2_pos m) + e <= E - 1)%Z -> (e <= E - p)%Z ->
  (3 - E - p <= E - p)%Z ->
  inject_Z (Zpos m) * 2 ^ e
    < to_Q (binary_round_aux p E false (Zpos m) e loc_Exact)
      + 2 * 2 ^ Z.max (Z.max e (fexp p E (Zpos (digits2_pos m) + e)))
                      (Zpos (digits2_pos m) + e + 1 - p).
Proof.
  intros Hp HD He HE.
  destruct (binary_round_aux_lower p E false m e loc_Exact)
    as (e' & Hlo & Hhi & [[Hr Hv]|(m' & Hr & Hv)]); [lia..| |]; rewrite Hr.
  - pose proof (Qpow2_le _ _ Hhi) as Hmono.
    pose proof (scaled_lt_Q (Zpos m) 0 e' e Hlo ltac:(lia)) as Hq.
    cbn [to_Q]. change (inject_Z 0) with 0 in Hq. lra.
  - pose proof (Qpow2_le _ _ Hhi) as Hmono.
    pose proof (scaled_lt_Q (Zpos m) (Zpos m') e' e Hlo Hv) as Hq.
    rewrite to_Q_finite. lra.
Qed.

Lemma binary_normalize_lower (p E : Z) (m : positive) (e : Z) :
  (0 < p)%Z -> (Zpos (digits2_pos m) + e <= E - 1)%Z -> (3 - E - p <= E - p)%Z ->
  inject_Z (Zpos m) * 2 ^ e
    < to_Q (binary_normalize p E (Zpos m) e false)
      + 2 * 2 ^ (fexp p E (Zpos (digits2_pos m) + e) + 1).
Proof.
  intros Hp HD HE. unfold binary_normalize, binary_round, shl_align.
  set (D := Zpos (digits2_pos m)) in *.
  set (f := fexp p E (D + e)).
  assert (Hf : f = Z.max (D + e - p) (3 - E - p)) by reflexivity.
  assert (Hgen : forall mz ez,
    (Zpos (digits2_pos mz) + ez = D + e)%Z -> (ez <= f)%Z ->
    inject_Z (Zpos mz) * 2 ^ ez == inject_Z (Zpos m) * 2 ^ e ->
    inject_Z (Zpos m) * 2 ^ e
      < to_Q (binary_round_aux p E false (Zpos mz) ez loc_Exact) + 2 * 2 ^ (f + 1)).
  { intros mz ez Hdz Hez Hval.
    pose proof (round_aux_lower_Q p E mz ez) as Hl.
    rewrite Hdz in Hl. fold f in Hl. specialize (Hl ltac:(lia) ltac:(lia) ltac:(lia) ltac:(lia)).
    pose proof (Qpow2_le (Z.max (Z.max ez f) (D + e + 1 - p)) (f + 1) ltac:(lia)) as Hmono.
    rewrite <- Hval. lra. }
  destruct (f - e)%Z as [|d|d] eqn:Hsub.
  - apply Hgen; [done|lia|reflexivity].
  - apply Hgen; [done|lia|reflexivity].
  - apply Hgen.
    + rewrite digits2_pos_iter_xO. fold D. lia.
    + lia.
    + assert (Hee : 2 ^ e == 2 ^ Zpos d * 2 ^ f).
      { rewrite <- Qpow2_add. replace (Zpos d + f)%Z with e by lia. reflexivity. }
      rewrite iter_xO_value, inject_Z_mult, Qpow2_inj, Hee by lia. ring.
Qed.

(** A pixel times 255, in the precision of its array: within 1/2048 of the
    exact product. *)
Lemma mul_255_value (dt : dtype) (m : positive) (e : Z) :
  (Zpos (digits2_pos m) + e <= 1)%Z ->
  (mul dt (S754_finite false m e) f255 = S754_zero false \/
   exists m' e', mul dt (S754_finite false m e) f255 = S754_finite false m' e') /\
  to_Q (mul dt (S754_finite false m e) f255) <= 255 * (inject_Z (Zpos m) * 2 ^ e) + (1 # 2048) /\
  255 * (inject_Z (Zpos m) * 2 ^ e) < to_Q (mul dt (S754_finite false m e) f255) + (1 # 2048).
Proof.
  intros HD. unfold mul, at_dtype, widen.
  set (p := prec dt). set (E := emax dt).
  assert (Hp : (24 <= p)%Z) by (destruct dt; cbn; lia).
  assert (HE : (128 <= E /\ 3 - E - p <= E - p /\ 3 - E - p <= 1 - p)%Z)
    by (destruct dt; cbn; lia).
  assert (Hc : exists mc ec, round_to dt f255 = S754_finite false mc ec /\
            (Zpos (digits2_pos mc) + ec = 8)%Z /\ (ec <= 0)%Z /\
            inject_Z (Zpos mc) * 2 ^ ec == 255).
  { destruct dt; eexists _, _; (split; [reflexivity|]); split_and!; done. }
  destruct Hc as (mc & ec & -> & Hdc & Hec & Hvc).
  cbn [round_to cond_Zopp]. fold p E.
  set (V := inject_Z (Zpos m) * 2 ^ e).
  destruct (binary_normalize_upper p E m e) as [Hx1 Hv1]; [lia..|].
  pose proof (binary_normalize_lower p E m e ltac:(lia) ltac:(lia) ltac:(lia)) as Hw1.
  fold V in Hv1, Hw1.
  set (f1 := fexp p E (Zpos (digits2_pos m) + e)) in *.
  assert (Hf1 : (f1 <= 1 - p)%Z) by (unfold f1, fexp, emin; lia).
  pose proof (Qpow2_le f1 (-23) ltac:(lia)) as Hu1.
  pose proof (Qpow2_le (f1 + 1) (-22) ltac:(lia)) as Hl1.
  change (2 ^ (-23)) with (1 # 8388608) in Hu1.
  change (2 ^ (-22)) with (1 # 4194304) in Hl1.
  destruct Hx1 as [R1|(m1 & e1 & R1 & Hd1 & He1)]; rewrite R1 in *.
  { cbn [to_Q] in *. split; [by left|]. cbn [SFmul to_Q round_to xorb]. lra. }
  rewrite to_Q_finite in Hv1, Hw1. set (V1 := inject_Z (Zpos m1) * 2 ^ e1) in *.
  cbn [SFmul xorb].
  pose proof (digits2_pos_mul m1 mc) as Hdm.
  destruct (round_aux_upper_Q p E (m1 * mc) (e1 + ec)) as [Hx2 Hv2]; [lia..|].
  pose proof (round_aux_lower_Q p E (m1 * mc) (e1 + ec)
                ltac:(lia) ltac:(lia) ltac:(lia) ltac:(lia)) as Hw2.
  set (f2 := Z.max (e1 + ec) (fexp p E (Zpos (digits2_pos (m1 * mc)) + (e1 + ec)))) in *.
  set (g2 := Z.max f2 (Zpos (digits2_pos (m1 * mc)) + (e1 + ec) + 1 - p)) in *.
  assert (Hf2 : (f2 <= -14)%Z) by (unfold f2, fexp, emin; lia).
  assert (Hg2 : (g2 <= -13)%Z) by (unfold g2, f2, fexp, emin; lia).
  pose proof (Qpow2_le f2 (-14) Hf2) as Hu2.
  pose proof (Qpow2_le g2 (-13) Hg2) as Hl2.
  change (2 ^ (-14)) with (1 # 16384) in Hu2.
  change (2 ^ (-13)) with (1 # 8192) in Hl2.
  assert (Hprod : inject_Z (Zpos (m1 * mc)) * 2 ^ (e1 + ec) == V1 * 255).
  { unfold V1. rewrite <- Hvc, Pos2Z.inj_mul, inject_Z_mult, Qpow2_add. ring. }
  rewrite Hprod in Hv2, Hw2.
  destruct Hx2 as [R2|(m2 & e2 & R2 & Hd2)]; rewrite R2 in *.
  { cbn [to_Q] in *. split; [by left|]. cbn [to_Q round_to]. lra. }
  rewrite to_Q_finite in Hv2, Hw2. set (V2 := inject_Z (Zpos m2) * 2 ^ e2) in *.
  cbn [round_to cond_Zopp prec emax].
  destruct (binary_normalize_upper 53 1024 m2 e2) as [Hx3 Hv3]; [lia..|].
  pose proof (binary_normalize_lower 53 1024 m2 e2 ltac:(lia) ltac:(lia) ltac:(lia)) as Hw3.
  fold V2 in Hv3, Hw3.
  set (f3 := fexp 53 1024 (Zpos (digits2_pos m2) + e2)) in *.
  assert (Hf3 : (f3 <= -42)%Z) by (unfold f3, fexp, emin; lia).
  pose proof (Qpow2_le f3 (-42) Hf3) as Hu3.
  pose proof (Qpow2_le (f3 + 1) (-41) ltac:(lia)) as Hl3.
  change (2 ^ (-42)) with (1 # 4398046511104) in Hu3.
  change (2 ^ (-41)) with (1 # 2199023255552) in Hl3.
  split.
  { destruct Hx3 as [R3|(m3 & e3 & R3 & _)]; rewrite R3; [by left|right; eauto]. }
  split; lra.
Qed.

End RationalValue.

(** ** The cast to 8 bits *)

Section EightBit.
Import IEEE PIL.

(** On a value whose integer part is a level 0..255 the cast to uint8 gives
    that level. *)
Lemma astype_uint8_level (y : spec_float) :
  0 <= trunc y < 256 -> byte_to_Z (astype_uint8 y) = trunc y.
Proof.
  intros Ht. unfold astype_uint8, byte_to_Z.
  rewrite decide_True by lia. rewrite Z.mod_small by done.
  destruct (Byte.of_N (Z.to_N (trunc y))) as [b|] eqn:Hb.
  - apply Byte.to_of_N in Hb. change (default "000"%byte (Some b)) with b.
    rewrite Hb. lia.
  - apply Byte.of_N_None_iff in Hb. lia.
Qed.

(** The byte made of a pixel in [0, 1]: the integer part of the pixel times
    255, the product taken in the precision of the array; as a number, at
    most one below the exact product, up to the rounding of the product. *)
Lemma astype_uint8_mul_255 (dt : dtype) (x : spec_float) :
  valid_binary 53 1024 x = true -> in_unit x = true ->
  byte_to_Z (astype_uint8 (mul dt x f255)) = Qfloor (to_Q (mul dt x f255)) /\
  (255 * to_Q x - 1 - (1 # 2048) < inject_Z (byte_to_Z (astype_uint8 (mul dt x f255))))%Q /\
  (inject_Z (byte_to_Z (astype_uint8 (mul dt x f255))) <= 255 * to_Q x + (1 # 2048))%Q.
Proof.
  intros Hv Hu. destruct (unit_value x Hv Hu) as [[s ->]|(m & e & -> & Hd & Hval)].
  - by destruct dt, s.
  - destruct (mul_255_value dt m e Hd) as (Hy & Hup & Hlow).
    set (y := mul dt (S754_finite false m e) f255) in *.
    destruct (trunc_floor_nonneg _ Hy) as [Ht H0].
    pose proof (Qfloor_le (to_Q y)) as Hfl. pose proof (Qlt_floor (to_Q y)) as Hfu.
    rewrite inject_Z_plus in Hfu. change (inject_Z 1) with 1%Q in Hfu.
    assert (Hb : byte_to_Z (astype_uint8 y) = Qfloor (to_Q y)).
    { rewrite <- Ht. apply astype_uint8_level. split; [done|].
      rewrite Ht, Zlt_Qlt. change (inject_Z 256) with 256%Q. lra. }
    rewrite Hb, to_Q_finite. split; [done|]. split; lra.
Qed.

End EightBit.

Section MaskSynthesizer.
Import IEEE Py np PyM PIL step4.
Context `{Pillow}.

Implicit Types (h : heap) (height width : Z) (letter : string) (r : spec_float).

(** A byte divided by 255 in float32 lies in [0, 1]; 255 gives 1.0 and 0
    gives 0.0. *)
Lemma byte_div_255_in_unit (b : byte) :
  in_unit (div float32 (of_Z (byte_to_Z b)) f255) = true.
Proof. destruct b; vm_compute; reflexivity. Qed.

Lemma white_div_255 : div float32 (of_Z (byte_to_Z "255"%byte)) f255 = one.
Proof. reflexivity. Qed.

Lemma black_div_255 : div float32 (of_Z (byte_to_Z "000"%byte)) f255 = zero.
Proof. reflexivity. Qed.

Lemma div_255_to_array_in_unit (img : image) :
  Forall (λ v, in_unit v = true) (data (div_255 (to_array_float32 img))).
Proof.
  cbn [div_255 to_array_float32 data dtype_of]. rewrite <- list_fmap_compose.
  apply Forall_fmap, Forall_true. intros b. apply byte_div_255_in_unit.
Qed.

Lemma div_255_to_array_shape (img : image) :
  shape (div_255 (to_array_float32 img)) = (im_height img, im_width img).
Proof. reflexivity. Qed.

Lemma div_255_to_array_well_formed (img : image) :
  length (im_pixels img) = (im_width img * im_height img)%nat →
  well_formed (div_255 (to_array_float32 img)).
Proof.
  intros Hl. unfold well_formed, size_of.
  cbn [div_255 to_array_float32 data shape dtype_of fst snd].
  rewrite !length_fmap. lia.
Qed.

Lemma paint_blank_length (w hh : nat) (color : byte) ink :
  length (im_pixels (paint (blank w hh color) ink))
    = (im_width (paint (blank w hh color) ink) * im_height (paint (blank w hh color) ink))%nat.
Proof. cbn [paint blank im_pixels im_width im_height]. by rewrite length_imap, length_replicate. Qed.

(** The loop over the font files stops at the first file that exists and
    loads; a file that is missing or fails to load is passed over. *)
Lemma first_font_first_match (paths : list string) (font_size : Z) :
  ∀ (i : nat) p f,
    paths !! i = Some p → path_exists p = true → truetype p font_size = Some f →
    (∀ j q, (j < i)%nat → paths !! j = Some q →
       path_exists q = false ∨ truetype q font_size = None) →
    first_font paths font_size = Some f.
Proof.
  induction paths as [|q paths IH]; intros i p f Hi Hex Hld Hbefore; [done|].
  destruct i as [|i].
  - injection Hi as ->. cbn [first_font]. by rewrite Hex, Hld.
  - cbn [first_font].
    assert (Hrest : first_font paths font_size = Some f).
    { apply (IH i p f); [done..|]. intros j q' Hj Hq'.
      apply (Hbefore (S j) q'); [lia|done]. }
    destruct (Hbefore 0%nat q) as [Hq|Hq]; [lia|done| |].
    + by rewrite Hq.
    + rewrite Hq. by destruct (path_exists q).
Qed.

Lemma first_font_none (paths : list string) (font_size : Z) :
  (∀ q, q ∈ paths → path_exists q = false ∨ truetype q font_size = None) →
  first_font paths font_size = None.
Proof.
  induction paths as [|q paths IH]; intros Hall; [done|]. cbn [first_font].
  rewrite IH by (intros q' Hq'; apply Hall; by right).
  destruct (Hall q) as [Hq|Hq]; [by left| |].
  - by rewrite Hq.
  - rewrite Hq. by destruct (path_exists q).
Qed.

(** [Image.new] on a size within the C int range for which the buffer can
    be provided. *)
Lemma Image_new_blank width height (color : byte) :
  0 ≤ width < 2 ^ 31 → 0 ≤ height < 2 ^ 31 →
  core_fill (Z.to_nat width) (Z.to_nat height) = Ok () →
  Image_new width height color = Ok (blank (Z.to_nat width) (Z.to_nat height) color).
Proof.
  intros Hw Hh Hfill. unfold Image_new.
  rewrite !decide_False by lia. by rewrite Hfill.
Qed.

Lemma Image_new_negative width height (color : byte) :
  height < 0 ∨ width < 0 →
  Image_new width height color = Raise (ValueError "Width and height must be >= 0").
Proof. intros Hneg. unfold Image_new. by rewrite decide_True by lia. Qed.

Lemma Image_new_overflow width height (color : byte) :
  0 ≤ width → 0 ≤ height → 2 ^ 31 ≤ height ∨ 2 ^ 31 ≤ width →
  ∃ msg, Image_new width height color = Raise (OverflowError msg).
Proof.
  intros Hw Hh Hbig. unfold Image_new. rewrite decide_False by lia.
  destruct (decide (2 ^ 31 ≤ width)); [by eexists|].
  rewrite decide_True by lia. by eexists.
Qed.

(** One call, stage by stage: the outcome is that of the first stage that
    does not return, and the array is allocated last. *)
Lemma create_block_letter_s_stages h height width letter r :
  create_block_letter_s height width letter r h =
    match Image_new width height "255"%byte with
    | Ok img =>
        match font_size_of height width r with
        | Ok font_size =>
            match textbbox (select_font font_size) letter with
            | Ok bbox =>
                match text_ink (select_font font_size) letter
                        (text_origin height width bbox) "000"%byte with
                | Ok ink =>
                    (Ok (fresh (dom h)),
                     <[fresh (dom h) := div_255 (to_array_float32 (paint img ink))]> h)
                | Raise e => (Raise e, h)
                | Dangling => (Dangling, h)
                end
            | Raise e => (Raise e, h)
            | Dangling => (Dangling, h)
            end
        | Raise e => (Raise e, h)
        | Dangling => (Dangling, h)
        end
    | Raise e => (Raise e, h)
    | Dangling => (Dangling, h)
    end.
Proof.
  unfold create_block_letter_s, draw_text, mbind, py_bind, lift, alloc.
  destruct (Image_new width height _) as [img| |]; [|done..].
  destruct (font_size_of height width r) as [font_size| |]; [|done..].
  destruct (textbbox _ letter) as [bbox| |]; [|done..].
  unfold result_bind. by destruct (text_ink _ letter _ _) as [ink| |].
Qed.

(** The canvas after the letter has been drawn on a white background. *)
Lemma create_block_letter_s_run h height width letter r font_size bbox ink :
  0 ≤ height < 2 ^ 31 → 0 ≤ width < 2 ^ 31 →
  core_fill (Z.to_nat width) (Z.to_nat height) = Ok () →
  font_size_of height width r = Ok font_size →
  textbbox (select_font font_size) letter = Ok bbox →
  text_ink (select_font font_size) letter (text_origin height width bbox) "000"%byte
    = Ok ink →
  create_block_letter_s height width letter r h =
    (Ok (fresh (dom h)),
     <[fresh (dom h) :=
         div_255 (to_array_float32
           (paint (blank (Z.to_nat width) (Z.to_nat height) "255"%byte) ink))]> h).
Proof.
  intros Hh Hw Hfill Hfs Hbb Hink. rewrite create_block_letter_s_stages.
  by rewrite (Image_new_blank width height) by done; rewrite Hfs, Hbb, Hink.
Qed.

(** A call that returns has allocated one array of the shape asked for. *)
Lemma create_block_letter_s_allocates_stage h height width letter r l h' :
  create_block_letter_s height width letter r h = (Ok l, h') →
  h !! l = None ∧
  ∃ img, h' = <[l := img]> h ∧ shape img = (Z.to_nat height, Z.to_nat width).
Proof.
  rewrite create_block_letter_s_stages.
  destruct (Image_new width height "255"%byte) as [img| |] eqn:Himg; [|done..].
  assert (img = blank (Z.to_nat width) (Z.to_nat height) "255"%byte) as ->.
  { unfold Image_new in Himg. repeat case_decide; try done.
    destruct (core_fill _ _) as [[]| |]; [|done..]. by injection Himg as <-. }
  destruct (font_size_of height width r) as [font_size| |]; [|done..].
  destruct (textbbox _ letter) as [bbox| |]; [|done..].
  destruct (text_ink _ letter _ _) as [ink| |]; [|done..].
  intros [= <- <-]. split; [apply fresh_not_allocated|]. by eexists.
Qed.

Lemma create_block_letter_s_negative h height width letter r :
  height < 0 ∨ width < 0 →
  create_block_letter_s height width letter r h =
    (Raise (ValueError "Width and height must be >= 0"), h).
Proof.
  intros Hneg. rewrite create_block_letter_s_stages.
  by rewrite Image_new_negative.
Qed.

Lemma coords_row_major (w i j : nat) : (j < w)%nat → coords w (i * w + j) = (j, i).
Proof.
  intros Hj. unfold coords. f_equal.
  - rewrite Nat.add_comm, Nat.Div0.mod_add. by apply Nat.mod_small.
  - rewrite Nat.add_comm, Nat.div_add by lia. rewrite Nat.div_small by done. lia.
Qed.

(** The bounding box of the letter, once drawn at [text_origin], has equal
    margins on both sides, up to the one pixel of an odd difference. *)
Lemma text_origin_centred height width (b0 b1 b2 b3 : Z) :
  let '(x, y) := text_origin height width (b0, b1, b2, b3) in
  0 ≤ (width - (x + b2)) - (x + b0) ≤ 1 ∧
  0 ≤ (height - (y + b3)) - (y + b1) ≤ 1.
Proof.
  cbn [text_origin].
  pose proof (Z.div_mod (width - (b2 - b0)) 2 ltac:(lia)).
  pose proof (Z.mod_pos_bound (width - (b2 - b0)) 2 ltac:(lia)).
  pose proof (Z.div_mod (height - (b3 - b1)) 2 ltac:(lia)).
  pose proof (Z.mod_pos_bound (height - (b3 - b1)) 2 ltac:(lia)).
  lia.
Qed.

Lemma getitem_block_letter (w hh : nat) (ink : nat * nat → byte → byte) (i j : nat) :
  (i < hh)%nat → (j < w)%nat →
  getitem (div_255 (to_array_float32 (paint (blank w hh "255"%byte) ink))) i j
  = Some (div float32 (of_Z (byte_to_Z (ink (j, i) "255"%byte))) f255).
Proof.
  intros Hi Hj. unfold getitem.
  cbn [div_255 to_array_float32 paint blank shape data dtype_of im_width im_height
       im_pixels fst snd].
  rewrite decide_True by done.
  rewrite !list_lookup_fmap, list_lookup_imap.
  rewrite lookup_replicate_2 by nia.
  cbn [fmap option_fmap option_map]. by rewrite coords_row_major.
Qed.

Lemma pow_31_lt_1000 : 2 ^ 31 < 2 ^ 1000.
Proof. apply Z.pow_lt_mono_r; lia. Qed.

(** C6, as the code has it.  For a positive height and width that
    [Image.new] accepts (both within the C int range, the buffer provided), a
    ratio in (0, 1], and a letter that Pillow measures and draws, the call
    returns a new float32 image of shape exactly (height, width) with every
    value in [0, 1].  The font size requested is the floor of
    [min(height, width) * ratio].  The letter is measured and drawn with the
    first listed font file that exists and loads at that size; when none
    does, with "arial.ttf" at that size; and only when that fails too, with
    the default font.  Its bounding box is centred on the canvas, and each
    pixel is the ink of the letter drawn in black (0) over white (255),
    divided by 255: 1.0 where the drawing leaves the background, 0.0 where it
    puts the fill colour. *)
Theorem create_block_letter_s_image h height width letter r font_size bbox ink :
  0 < height < 2 ^ 31 → 0 < width < 2 ^ 31 →
  valid_binary 53 1024 r = true → SFltb zero r = true → SFleb r one = true →
  core_fill (Z.to_nat width) (Z.to_nat height) = Ok () →
  font_size = Qfloor (to_Q (SFmul 53 1024 (of_Z (Z.min height width)) r)) →
  textbbox (select_font font_size) letter = Ok bbox →
  text_ink (select_font font_size) letter (text_origin height width bbox) "000"%byte
    = Ok ink →
  ∃ l img,
    create_block_letter_s height width letter r h = (Ok l, <[l := img]> h) ∧
    h !! l = None ∧
    dtype_of img = float32 ∧
    shape img = (Z.to_nat height, Z.to_nat width) ∧ well_formed img ∧
    Forall (λ v, in_unit v = true) (data img) ∧
    font_size_of height width r = Ok font_size ∧
    (∀ (i : nat) p f,
       font_paths !! i = Some p → path_exists p = true → truetype p font_size = Some f →
       (∀ j q, (j < i)%nat → font_paths !! j = Some q →
          path_exists q = false ∨ truetype q font_size = None) →
       select_font font_size = f) ∧
    ((∀ q, q ∈ font_paths → path_exists q = false ∨ truetype q font_size = None) →
     (∀ f, truetype "arial.ttf" font_size = Some f → select_font font_size = f) ∧
     (truetype "arial.ttf" font_size = None → select_font font_size = load_default)) ∧
    ∃ b0 b1 b2 b3 x y,
      bbox = (b0, b1, b2, b3) ∧
      text_origin height width bbox = (x, y) ∧
      0 ≤ (width - (x + b2)) - (x + b0) ≤ 1 ∧
      0 ≤ (height - (y + b3)) - (y + b1) ≤ 1 ∧
      ∀ i j, (i < Z.to_nat height)%nat → (j < Z.to_nat width)%nat →
        let b := ink (j, i) "255"%byte in
        getitem img i j = Some (div float32 (of_Z (byte_to_Z b)) f255) ∧
        (b = "255"%byte → getitem img i j = Some one) ∧
        (b = "000"%byte → getitem img i j = Some zero).
Proof.
  intros Hh Hw Hv Hpos Hle Hfill -> Hbb Hink.
  pose proof pow_31_lt_1000 as Hpow.
  destruct (font_size_of_floor height width r) as [Hfs _]; [lia|lia|lia|done..|].
  set (font_size := Qfloor (to_Q (SFmul 53 1024 (of_Z (Z.min height width)) r))) in *.
  eexists _, _. split_and!.
  - apply (create_block_letter_s_run h height width letter r font_size bbox ink);
      [lia|lia|done..].
  - apply fresh_not_allocated.
  - done.
  - apply div_255_to_array_shape.
  - apply div_255_to_array_well_formed, paint_blank_length.
  - apply div_255_to_array_in_unit.
  - done.
  - intros i p f Hi Hex Hld Hbefore. unfold select_font.
    by rewrite (first_font_first_match font_paths font_size i p f).
  - intros Hnone. unfold select_font. rewrite first_font_none by done.
    split; [by intros f ->|by intros ->].
  - destruct bbox as [[[b0 b1] b2] b3].
    destruct (text_origin height width (b0, b1, b2, b3)) as [x y] eqn:Hxy.
    pose proof (text_origin_centred height width b0 b1 b2 b3) as Hc.
    rewrite Hxy in Hc. destruct Hc as [Hcx Hcy].
    exists b0, b1, b2, b3, x, y. split_and!; [done|done|lia..|].
    intros i j Hi Hj b.
    assert (Hg : getitem
              (div_255 (to_array_float32
                 (paint (blank (Z.to_nat width) (Z.to_nat height) "255"%byte) ink))) i j
            = Some (div float32 (of_Z (byte_to_Z b)) f255))
      by by apply getitem_block_letter.
    split_and!; [done| |].
    + intros Hb. by rewrite Hg, Hb.
    + intros Hb. by rewrite Hg, Hb.
Qed.

(** With the smaller side zero the font size is zero, for every finite
    ratio. *)
Lemma font_size_of_zero_side height width r :
  0 ≤ height → 0 ≤ width → height = 0 ∨ width = 0 → is_finite r = true →
  font_size_of height width r = Ok 0.
Proof.
  intros Hh Hw Hz Hr. assert (Z.min height width = 0) as Hmin by lia.
  unfold font_size_of. rewrite Hmin. cbn [float_of_int of_Z binary_normalize].
  by destruct r as [s|s| |s m e].
Qed.

(** C7, as the code has it.  The function checks no dimension itself.  A
    negative height or width is rejected by [Image.new] with a ValueError,
    before anything is drawn or allocated, whatever the other arguments.  A
    height or width of zero (none negative) is no error: when [Image.new]
    accepts the size (the other side within the C int range, the buffer
    provided), the ratio is finite and Pillow measures and draws the letter,
    the font size is 0 and the call returns a new image of shape
    (height, width) that holds no pixel. *)
Theorem create_block_letter_s_nonpositive h height width letter r :
  height ≤ 0 ∨ width ≤ 0 →
  (height < 0 ∨ width < 0 →
     create_block_letter_s height width letter r h =
       (Raise (ValueError "Width and height must be >= 0"), h)) ∧
  (0 ≤ height < 2 ^ 31 → 0 ≤ width < 2 ^ 31 → is_finite r = true →
   core_fill (Z.to_nat width) (Z.to_nat height) = Ok () →
   ∀ bbox ink,
     textbbox (select_font 0) letter = Ok bbox →
     text_ink (select_font 0) letter (text_origin height width bbox) "000"%byte = Ok ink →
     font_size_of height width r = Ok 0 ∧
     ∃ l img,
       create_block_letter_s height width letter r h = (Ok l, <[l := img]> h) ∧
       h !! l = None ∧
       shape img = (Z.to_nat height, Z.to_nat width) ∧ data img = []).
Proof.
  intros Hnp. split.
  - apply create_block_letter_s_negative.
  - intros Hh Hw Hr Hfill bbox ink Hbb Hink.
    assert (Hfs : font_size_of height width r = Ok 0)
      by (apply font_size_of_zero_side; [lia..|done]).
    split; [done|]. eexists _, _. split_and!.
    + by apply (create_block_letter_s_run h height width letter r 0 bbox ink).
    + apply fresh_not_allocated.
    + apply div_255_to_array_shape.
    + cbn [div_255 to_array_float32 paint blank data dtype_of im_pixels im_width im_height].
      assert (Z.to_nat width * Z.to_nat height = 0)%nat as -> by lia. done.
Qed.

End MaskSynthesizer.

(** ** The Panel Compositor: reconciliation of the panel sizes *)

Section Reconciliation.
Import IEEE Py np PyM PIL create_meme.
Context `{Pillow}.

Implicit Types (h : heap) (a o : ndarray).

(** A panel of the canonical shape is handed back as it is: the same object,
    and the heap is not touched. *)
Lemma ensure_size_same h l a target_h target_w name :
  h !! l = Some a → shape a = (target_h, target_w) →
  ensure_size l target_h target_w name h = (Ok l, h).
Proof.
  intros Hl Hsh. unfold ensure_size.
  rewrite (bind_Ok _ _ h h a) by by apply deref_Some.
  by rewrite decide_False by (intros Hne; by apply Hne).
Qed.

(** A panel of another shape goes through Pillow; the outcome of the call is
    the outcome of [resize]. *)
Lemma ensure_size_resized h l a target_h target_w name :
  h !! l = Some a → shape a ≠ (target_h, target_w) →
  ensure_size l target_h target_w name h =
    match resize_LANCZOS (Image_fromarray (shape a) (astype_uint8 <$> mul_255 a))
            (target_w, target_h) with
    | Ok out => (Ok (fresh (dom h)),
                 <[fresh (dom h) := div_255 (to_array_float32 out)]> h)
    | Raise e => (Raise e, h)
    | Dangling => (Dangling, h)
    end.
Proof.
  intros Hl Hsh. unfold ensure_size.
  rewrite (bind_Ok _ _ h h a) by by apply deref_Some.
  rewrite decide_True by done.
  unfold mbind, py_bind, lift, alloc.
  by destruct (resize_LANCZOS _ _).
Qed.

(** Every value of a returned panel is in [0, 1] when those of the given
    panel are, and no array of the heap is changed. *)
Lemma ensure_size_in_unit h l target_h target_w name l' h' :
  in_unit_at h l →
  ensure_size l target_h target_w name h = (Ok l', h') →
  in_unit_at h' l' ∧ ∀ k, in_unit_at h k → in_unit_at h' k.
Proof.
  intros (a & Hl & Ha) Hrun.
  destruct (decide (shape a = (target_h, target_w))) as [Hsh|Hsh].
  - rewrite (ensure_size_same h l a) in Hrun by done.
    injection Hrun as <- <-. split; [by exists a|done].
  - rewrite (ensure_size_resized h l a) in Hrun by done.
    destruct (resize_LANCZOS _ _) as [out| |]; [|done..].
    injection Hrun as <- <-. split.
    + eexists. split; [apply lookup_insert_eq|]. apply div_255_to_array_in_unit.
    + intros k (b & Hk & Hb). exists b. split; [|done].
      rewrite lookup_insert_ne; [done|]. intros <-.
      rewrite fresh_not_allocated in Hk. done.
Qed.

(** One panel and a non-empty canonical shape: the call returns a panel of
    that shape, the given one or a new one, and changes no array. *)
Lemma ensure_size_returns h l a target_h target_w name :
  resize_exact →
  h !! l = Some a → well_formed a →
  (0 < (shape a).1)%nat → (0 < (shape a).2)%nat →
  (0 < target_h)%nat → (0 < target_w)%nat →
  ∃ l' h' a',
    ensure_size l target_h target_w name h = (Ok l', h') ∧
    (∀ k b, h !! k = Some b → h' !! k = Some b) ∧
    h' !! l' = Some a' ∧ shape a' = (target_h, target_w) ∧ well_formed a' ∧
    (shape a = (target_h, target_w) → l' = l ∧ a' = a) ∧
    (shape a ≠ (target_h, target_w) →
       l' ≠ l ∧
       ∃ out,
         resize_LANCZOS (Image_fromarray (shape a) (astype_uint8 <$> mul_255 a))
           (target_w, target_h) = Ok out ∧
         a' = div_255 (to_array_float32 out)).
Proof.
  intros Hpil Hl Hwf Hh Hw Hth Htw.
  destruct (decide (shape a = (target_h, target_w))) as [Hsh|Hsh].
  - exists l, h, a.
    split_and!; [by apply (ensure_size_same h l a)|done..|by intros|by intros].
  - destruct (Hpil (Image_fromarray (shape a) (astype_uint8 <$> mul_255 a))
                target_w target_h) as (out & Hres & Hwo & Hho & Hlo).
    { done. }
    { done. }
    { unfold well_formed, size_of in Hwf. unfold mul_255.
      cbn [Image_fromarray im_pixels im_width im_height].
      rewrite !length_fmap. lia. }
    { done. }
    { done. }
    assert (Hfr : h !! fresh (dom h) = None) by apply fresh_not_allocated.
    exists (fresh (dom h)), (<[fresh (dom h) := div_255 (to_array_float32 out)]> h),
      (div_255 (to_array_float32 out)).
    split_and!.
    + rewrite (ensure_size_resized h l a) by done. by rewrite Hres.
    + intros k b Hk. rewrite lookup_insert_ne; [done|]. intros <-. congruence.
    + apply lookup_insert_eq.
    + rewrite div_255_to_array_shape. by rewrite Hwo, Hho.
    + apply div_255_to_array_well_formed. rewrite Hlo, Hwo, Hho. done.
    + done.
    + intros _. split; [intros <-; congruence|]. by exists out.
Qed.

(** The bytes [(img * 255).astype(np.uint8)] of a panel with pixels in
    [0, 1] are its 8-bit levels. *)
Lemma levels_of_unit_pixels a :
  unit_pixels a → levels_of (dtype_of a) (data a) (astype_uint8 <$> mul_255 a).
Proof.
  intros Hu. unfold levels_of, mul_255. split; [by rewrite !length_fmap|].
  intros k x Hx. destruct (Forall_lookup_1 _ _ _ _ Hu Hx) as [Hv Hin].
  destruct (astype_uint8_mul_255 (dtype_of a) x Hv Hin) as (Hfl & Hlow & Hup).
  exists (astype_uint8 (mul (dtype_of a) x f255)). split_and!.
  - by rewrite !list_lookup_fmap, Hx.
  - done.
  - done.
  - done.
  - intros ->. by destruct (dtype_of a).
  - intros ->. by destruct (dtype_of a).
Qed.

(** [np.array(img, dtype=np.float32) / 255.0], pixel by pixel. *)
Lemma div_255_to_array_pixels (img : image) :
  div_255 (to_array_float32 img)
  = mk_ndarray float32 (im_height img, im_width img)
      ((λ b, div float32 (of_Z (byte_to_Z b)) f255) <$> im_pixels img).
Proof.
  unfold div_255, to_array_float32. cbn [dtype_of shape data].
  by rewrite <- list_fmap_compose.
Qed.

(** One panel with pixels in [0, 1], reconciled with a non-empty canonical
    shape. *)
Lemma ensure_size_reconciled h l a target_h target_w name :
  resize_exact →
  h !! l = Some a → well_formed a → unit_pixels a →
  (0 < (shape a).1)%nat → (0 < (shape a).2)%nat →
  (0 < target_h)%nat → (0 < target_w)%nat →
  ∃ l' h',
    ensure_size l target_h target_w name h = (Ok l', h') ∧
    (∀ k b, h !! k = Some b → h' !! k = Some b) ∧
    reconciled h' (target_h, target_w) l a l'.
Proof.
  intros Hpil Hl Hwf Hu Hh Hw Hth Htw.
  destruct (ensure_size_returns h l a target_h target_w name)
    as (l' & h' & a' & Hrun & Hsub & Hl' & Hsh' & Hwf' & Hsame & Hother); [done..|].
  exists l', h'. split_and!; [done..|].
  exists a'. split_and!; [done|by apply Hsub|done|done|done|].
  intros Hne. destruct (Hother Hne) as (Hll & out & Hres & ->).
  split; [done|].
  exists (astype_uint8 <$> mul_255 a), out. split_and!.
  - by apply levels_of_unit_pixels.
  - done.
  - apply div_255_to_array_pixels.
Qed.

(** A reconciled panel stays reconciled when further arrays are allocated. *)
Lemma reconciled_mono (h1 h2 : heap) sh l a l' :
  (∀ k b, h1 !! k = Some b → h2 !! k = Some b) →
  reconciled h1 sh l a l' → reconciled h2 sh l a l'.
Proof.
  intros Hsub (a' & Hl' & Hl & Hrest). exists a'.
  split; [by apply Hsub|]. split; [by apply Hsub|done].
Qed.

(** C8. The shape of the first image is the canonical one.  Each of the
    other three panels that already has it is handed on as the same object,
    unchanged.  Each panel of another shape, with pixels in [0, 1], is
    replaced by a new float32 array of exactly the canonical shape: Pillow is
    given, as an image of the panel's shape, one byte per pixel, the integer
    part of the pixel times 255 (0 for 0.0, 255 for 1.0); it resizes that
    image to the canonical width and height; and each byte of the outcome
    divided by 255 is a pixel of the new panel.  No given array is changed.
    (Images are non-empty; Pillow's [resize] is as documented.) *)
Theorem panel_data_reconciled h lo l1 l2 l3 o a1 a2 a3 :
  resize_exact →
  h !! lo = Some o → h !! l1 = Some a1 → h !! l2 = Some a2 → h !! l3 = Some a3 →
  (0 < (shape o).1)%nat ∧ (0 < (shape o).2)%nat →
  well_formed a1 ∧ (0 < (shape a1).1)%nat ∧ (0 < (shape a1).2)%nat →
  well_formed a2 ∧ (0 < (shape a2).1)%nat ∧ (0 < (shape a2).2)%nat →
  well_formed a3 ∧ (0 < (shape a3).1)%nat ∧ (0 < (shape a3).2)%nat →
  unit_pixels a1 → unit_pixels a2 → unit_pixels a3 →
  ∃ l1' l2' l3' h',
    panel_data lo l1 l2 l3 h = (Ok [lo; l1'; l2'; l3'], h') ∧
    h' !! lo = Some o ∧
    (∀ k b, h !! k = Some b → h' !! k = Some b) ∧
    reconciled h' (shape o) l1 a1 l1' ∧
    reconciled h' (shape o) l2 a2 l2' ∧
    reconciled h' (shape o) l3 a3 l3'.
Proof.
  intros Hpil Hlo Hl1 Hl2 Hl3 [Hoh How] (Hwf1 & Hh1 & Hw1) (Hwf2 & Hh2 & Hw2)
    (Hwf3 & Hh3 & Hw3) Hu1 Hu2 Hu3.
  unfold panel_data. rewrite (bind_Ok _ _ h h o) by by apply deref_Some.
  destruct (shape o) as [th tw]. cbn [fst snd] in Hoh, How.
  destruct (ensure_size_reconciled h l1 a1 th tw "stipple_img")
    as (l1' & h1 & Hrun1 & Hsub1 & Hrec1); [done..|].
  destruct (ensure_size_reconciled h1 l2 a2 th tw "block_letter_img")
    as (l2' & h2 & Hrun2 & Hsub2 & Hrec2); [by auto..|].
  destruct (ensure_size_reconciled h2 l3 a3 th tw "masked_stipple_img")
    as (l3' & h3 & Hrun3 & Hsub3 & Hrec3); [by auto..|].
  exists l1', l2', l3', h3. split_and!.
  - rewrite (bind_Ok _ _ h h1 l1') by done.
    rewrite (bind_Ok _ _ h1 h2 l2') by done.
    by rewrite (bind_Ok _ _ h2 h3 l3') by done.
  - auto.
  - auto.
  - apply (reconciled_mono h1); [by auto|done].
  - apply (reconciled_mono h2); [by auto|done].
  - done.
Qed.

(** The values of the reconciled panels are in [0, 1] when those of the four
    given images are. *)
Lemma panel_data_in_unit h lo l1 l2 l3 ls h' :
  in_unit_at h lo → in_unit_at h l1 → in_unit_at h l2 → in_unit_at h l3 →
  panel_data lo l1 l2 l3 h = (Ok ls, h') →
  Forall (in_unit_at h') ls.
Proof.
  intros Hlo Hl1 Hl2 Hl3. unfold panel_data.
  destruct Hlo as (o & Ho & Hov).
  rewrite (bind_Ok _ _ h h o) by by apply deref_Some.
  destruct (shape o) as [th tw].
  assert (Hlo : in_unit_at h lo) by by exists o.
  unfold mbind at 1, py_bind.
  destruct (ensure_size l1 th tw _ h) as [[l1'| |] h1] eqn:Hrun1; [|done..].
  destruct (ensure_size_in_unit _ _ _ _ _ _ _ Hl1 Hrun1) as [Hr1 Hk1].
  unfold mbind at 1, py_bind.
  destruct (ensure_size l2 th tw _ h1) as [[l2'| |] h2] eqn:Hrun2; [|done..].
  destruct (ensure_size_in_unit _ _ _ _ _ _ _ (Hk1 _ Hl2) Hrun2) as [Hr2 Hk2].
  unfold mbind at 1, py_bind.
  destruct (ensure_size l3 th tw _ h2) as [[l3'| |] h3] eqn:Hrun3; [|done..].
  destruct (ensure_size_in_unit _ _ _ _ _ _ _ (Hk2 _ (Hk1 _ Hl3)) Hrun3) as [Hr3 Hk3].
  intros [= <- <-]. repeat constructor; auto.
Qed.

End Reconciliation.

(** ** No stage leaves the unit interval *)

Section UnitInterval.
Import IEEE Py np PyM PIL step4 step5 create_meme.
Context `{Pillow}.

Lemma masked_fill_Forall (P : spec_float → Prop) (mask : list bool) v xs :
  P v → Forall P xs → Forall P (masked_fill mask v xs).
Proof.
  intros Hv Hxs. apply Forall_lookup_2. intros k x.
  rewrite masked_fill_lookup.
  destruct (mask !! k) as [b|]; [|done]. destruct (xs !! k) as [y|] eqn:Hy; [|done].
  cbn. intros [= <-]. destruct b; [done|]. by eapply Forall_lookup_1.
Qed.

(** C5. Pixel values stay in [0, 1]: the image a Mask Applicator call
    returns, when those of the sampled image are (whatever the mask and the
    threshold); the image a Mask Synthesizer call returns; and the panels
    the Compositor's reconciliation returns, resized or not, when those of
    the four given images are. *)
Theorem outputs_in_unit_interval :
  (∀ (h : heap) ls lm t l h',
     in_unit_at h ls →
     create_masked_stipple ls lm t h = (Ok l, h') → in_unit_at h' l) ∧
  (∀ (h : heap) height width letter r l h',
     create_block_letter_s height width letter r h = (Ok l, h') → in_unit_at h' l) ∧
  (∀ (h : heap) lo l1 l2 l3 ls h',
     in_unit_at h lo → in_unit_at h l1 → in_unit_at h l2 → in_unit_at h l3 →
     panel_data lo l1 l2 l3 h = (Ok ls, h') → Forall (in_unit_at h') ls).
Proof.
  split_and!.
  - intros h ls lm t l h' (s & Hs & Hsv) Hrun.
    destruct (h !! lm) as [m|] eqn:Hm.
    + destruct (decide (shape s = shape m)) as [Hsh|Hsh].
      * rewrite (create_masked_stipple_run h ls lm s m t) in Hrun by done.
        injection Hrun as <- <-. eexists. split; [apply lookup_insert_eq|].
        cbn [masked_value data]. by apply masked_fill_Forall.
      * by rewrite (create_masked_stipple_mismatch h ls lm s m t) in Hrun.
    + unfold create_masked_stipple in Hrun.
      rewrite (bind_Ok _ _ h h s) in Hrun by by apply deref_Some.
      unfold mbind, py_bind, deref in Hrun. by rewrite Hm in Hrun.
  - intros h height width letter r l h'. rewrite create_block_letter_s_stages.
    destruct (Image_new width height _) as [img| |]; [|done..].
    destruct (font_size_of height width r) as [font_size| |]; [|done..].
    destruct (textbbox _ letter) as [bbox| |]; [|done..].
    destruct (text_ink _ letter _ _) as [ink| |]; [|done..].
    intros [= <- <-]. eexists. split; [apply lookup_insert_eq|].
    apply div_255_to_array_in_unit.
  - intros h lo l1 l2 l3 ls h'. apply panel_data_in_unit.
Qed.

End UnitInterval.

(** ** Worked instances *)

Section Instances.
Import IEEE Py np PyM PIL step4 step5 create_meme samples.

(** The nearest-neighbour stand-in meets what is asked of Pillow's resize. *)
Lemma one_font_resize_exact : @resize_exact one_font.
Proof.
  intros im w h Hw Hh Hl Hw' Hh'. cbn [resize_LANCZOS one_font resize_nearest].
  rewrite decide_False by lia. eexists. split; [done|].
  cbn [im_width im_height im_pixels]. split_and!; [done..|].
  by rewrite length_fmap, length_seq.
Qed.

(** Scenario: a 10 x 10 image under an all-black mask is erased entirely. *)
Example scenario_fully_erased :
  (r ← create_masked_stipple 1 1 half; deref r) scenario_store
  = (Ok all_white, <[4%positive := all_white]> scenario_store).
Proof. vm_compute. reflexivity. Qed.

(** Scenario: under an all-white mask the image is preserved. *)
Example scenario_fully_preserved :
  (r ← create_masked_stipple 1 2 half; deref r) scenario_store
  = (Ok all_black, <[4%positive := all_black]> scenario_store).
Proof. vm_compute. reflexivity. Qed.

(** Scenario: shapes (10, 10) and (10, 11). *)
Example scenario_shape_mismatch :
  create_masked_stipple 1 3 half scenario_store
  = (Raise (ValueError
       "Images must have the same shape. stipple_img: (10, 10), mask_img: (10, 11)"),
     scenario_store).
Proof. vm_compute. reflexivity. Qed.

(** A 4 x 6 letter with the one font: size 3, drawn at column 1, row 0. *)
Example block_letter_4_by_6 :
  (l ← create_block_letter_s (H := one_font) 4 6 "S" default_font_size_ratio; deref l) ∅
  = (Ok (mk_ndarray float32 (4, 6)%nat
           [one; zero; zero; zero; one; one;
            one; zero; zero; zero; one; one;
            one; zero; zero; zero; one; one;
            one; one;  one;  one;  one; one]),
     {[1%positive := mk_ndarray float32 (4, 6)%nat
           [one; zero; zero; zero; one; one;
            one; zero; zero; zero; one; one;
            one; zero; zero; zero; one; one;
            one; one;  one;  one;  one; one]]}).
Proof. vm_compute. reflexivity. Qed.

(** Scenario: height 50, width 200, letter "S": an image of shape (50, 200). *)
Example scenario_block_letter_50_by_200 :
  ∃ l h' img,
    create_block_letter_s (H := one_font) 50 200 "S" default_font_size_ratio ∅
      = (Ok l, h') ∧ h' !! l = Some img ∧
    shape img = (50, 200)%nat ∧ font_size_of 50 200 default_font_size_ratio = Ok 45 ∧
    getitem img 25 100 = Some zero ∧ getitem img 0 0 = Some one.
Proof.
  eexists _, _, _. split.
  { apply (create_block_letter_s_run (H := one_font) ∅ 50 200 "S" default_font_size_ratio
             45 (0, 0, 45, 45) (square_ink 45 (text_origin 50 200 (0, 0, 45, 45)) "000"%byte));
      [lia|lia|reflexivity..]. }
  split; [apply lookup_insert_eq|]. split; [done|]. split; [done|].
  split; by rewrite getitem_block_letter by lia.
Qed.

(** A ratio of 10000 asks for a glyph of 40000 pixels on a 4 x 4 canvas:
    the drawing is refused and the call raises. *)
Example block_letter_glyph_too_large :
  create_block_letter_s (H := one_font) 4 4 "S" (of_Z 10000) ∅
  = (Raise (DecompressionBombError
       "Image size (1600000000 pixels) exceeds limit of 178956970 pixels, could be decompression bomb DOS attack."),
     ∅).
Proof. vm_compute. reflexivity. Qed.

(** The cast to 8 bits wraps around within 32 bits and gives 0 beyond. *)
Example astype_uint8_out_of_range :
  astype_uint8 (of_Z (-1)) = "255"%byte ∧ astype_uint8 (of_Z 511) = "255"%byte ∧
  astype_uint8 (of_Z (2 ^ 40 + 251)) = "000"%byte ∧ astype_uint8 S754_nan = "000"%byte.
Proof. vm_compute. done. Qed.

(** Reconciliation with a 2 x 2 original: the 2 x 2 panels are handed on as
    they are, the 1 x 3 strip is replaced by a new 2 x 2 array whose values
    went through 8 bits (0.5 becomes 127/255). *)
Example panel_data_strip_resized :
  (ls ← panel_data (H := one_font) 1 2 4 3; a ← deref 5; mret (ls, shape a, data a)) store4
  = (Ok ([1; 2; 5; 3]%positive, (2, 2)%nat,
         [zero; div float32 (of_Z 127) f255; zero; div float32 (of_Z 127) f255]),
     <[5%positive := mk_ndarray float32 (2, 2)%nat
         [zero; div float32 (of_Z 127) f255; zero; div float32 (of_Z 127) f255]]> store4).
Proof. vm_compute. reflexivity. Qed.

(** A target shape with an empty side makes the resize, and so the whole
    reconciliation, raise. *)
Example ensure_size_empty_target :
  ensure_size (H := one_font) 4 0 3 "block_letter_img" store4
  = (Raise (ValueError "height and width must be > 0"), store4).
Proof. vm_compute. reflexivity. Qed.

(** Beyond the binary64 range the conversion of the dimension raises. *)
Example font_size_of_overflow :
  font_size_of (2 ^ 1024) (2 ^ 1024) default_font_size_ratio
  = Raise (OverflowError "int too large to convert to float").
Proof. vm_compute. reflexivity. Qed.

End Instances.

(** ** The theorems at concrete inputs *)

Section Witnesses.
Import IEEE Py np PyM PIL step4 step5 create_meme samples.

Lemma create_masked_stipple_pixels_witness :
  ∃ l r h',
    create_masked_stipple 1 2 just_above_tenth32 store32 = (Ok l, h') ∧ h' !! l = Some r ∧
    dtype_of r = dtype_of black_dot ∧ shape r = shape black_dot ∧ well_formed r ∧
    (dtype_of mask32 = float64 → as_dtype (dtype_of mask32) just_above_tenth32
                                   = just_above_tenth32) ∧
    (∀ i j, (i < (shape black_dot).1)%nat → (j < (shape black_dot).2)%nat →
       ∃ x y, getitem black_dot i j = Some x ∧ getitem mask32 i j = Some y ∧
              getitem r i j
                = Some (if SFltb y (as_dtype (dtype_of mask32) just_above_tenth32)
                        then one else x)) ∧
    (∀ i j y, getitem mask32 i j = Some y →
       y = as_dtype (dtype_of mask32) just_above_tenth32 ∨
       SFeqb y (as_dtype (dtype_of mask32) just_above_tenth32) = true ∨
       (y = just_above_tenth32 ∧ as_dtype (dtype_of mask32) y = y) →
       getitem r i j = getitem black_dot i j).
Proof.
  apply (create_masked_stipple_pixels store32 1 2 black_dot mask32 just_above_tenth32);
    reflexivity.
Defined.

(** C1, as the specification states it, fails for a float32 mask: the mask
    value float32(0.1) is below the threshold 0.1000000015, yet the pixel is
    not set to 1.0 but keeps the value 0.0 of the sampled image, because the
    threshold is compared as float32(0.1000000015) = float32(0.1). *)
Lemma create_masked_stipple_float32_mask_below_threshold_kept :
  store32 !! 1%positive = Some black_dot ∧ store32 !! 2%positive = Some mask32 ∧
  shape black_dot = shape mask32 ∧
  getitem black_dot 0 0 = Some zero ∧ getitem mask32 0 0 = Some tenth32 ∧
  SFltb tenth32 just_above_tenth32 = true ∧
  (to_Q tenth32 < to_Q just_above_tenth32)%Q ∧
  ((r ← create_masked_stipple 1 2 just_above_tenth32; a ← deref r; mret (getitem a 0 0))
     store32).1 = Ok (Some zero).
Proof. split_and!; reflexivity. Qed.

Lemma create_masked_stipple_raises_iff_shapes_differ_witness :
  (shape all_black = shape wider →
     ∃ l r, create_masked_stipple 1 3 half scenario_store
              = (Ok l, <[l := r]> scenario_store) ∧
            scenario_store !! l = None ∧
            shape r = shape all_black ∧ shape r = shape wider) ∧
  (shape all_black ≠ shape wider →
     create_masked_stipple 1 3 half scenario_store =
       (Raise (ValueError ("Images must have the same shape. stipple_img: "
                           +:+ shape_repr (shape all_black) +:+ ", mask_img: "
                           +:+ shape_repr (shape wider))), scenario_store)) ∧
  ((∃ e h', create_masked_stipple 1 3 half scenario_store = (Raise e, h'))
     ↔ shape all_black ≠ shape wider).
Proof.
  apply (create_masked_stipple_raises_iff_shapes_differ
           scenario_store 1 3 all_black wider half); reflexivity.
Defined.

Lemma create_masked_stipple_fresh_result_inputs_unchanged_witness :
  ∃ res h',
    create_masked_stipple 1 2 half store4 = (res, h') ∧
    h' !! 1%positive = Some stipple ∧ h' !! 2%positive = Some mask_a ∧
    (∀ l a, store4 !! l = Some a → h' !! l = Some a) ∧
    match res with
    | Ok l => (l ∉ dom store4) ∧ l ≠ 1%positive ∧ l ≠ 2%positive ∧
              is_Some (h' !! l) ∧ (∀ l', l' ≠ l → h' !! l' = store4 !! l')
    | Raise _ => h' = store4
    | Dangling => False
    end.
Proof.
  apply (create_masked_stipple_fresh_result_inputs_unchanged
           store4 1 2 stipple mask_a half); reflexivity.
Defined.

Lemma create_masked_stipple_idempotent_witness :
  ∃ l1 h1 r l2 h2,
    create_masked_stipple 1 2 half store4 = (Ok l1, h1) ∧ h1 !! l1 = Some r ∧
    create_masked_stipple l1 2 half h1 = (Ok l2, h2) ∧
    h2 !! l2 = Some r ∧ h2 !! l1 = Some r.
Proof.
  apply (create_masked_stipple_idempotent store4 1 2 stipple mask_a half); reflexivity.
Defined.

Lemma create_masked_stipple_commutes_witness :
  ∃ la ha lb hb r,
    (x ← create_masked_stipple 1 2 just_above_tenth32;
     create_masked_stipple x 3 just_above_tenth32) store32 = (Ok la, ha) ∧
    (x ← create_masked_stipple 1 3 just_above_tenth32;
     create_masked_stipple x 2 just_above_tenth32) store32 = (Ok lb, hb) ∧
    ha !! la = Some r ∧ hb !! lb = Some r ∧ shape r = shape black_dot ∧
    ∀ i j, (i < (shape black_dot).1)%nat → (j < (shape black_dot).2)%nat →
      ∃ x y1 y2,
        getitem black_dot i j = Some x ∧ getitem mask32 i j = Some y1 ∧
        getitem white_dot i j = Some y2 ∧
        getitem r i j
          = Some (if (SFltb y1 (as_dtype (dtype_of mask32) just_above_tenth32)
                      || SFltb y2 (as_dtype (dtype_of white_dot) just_above_tenth32))%bool
                  then one else x).
Proof.
  apply (create_masked_stipple_commutes store32 1 2 3 black_dot mask32 white_dot
           just_above_tenth32); reflexivity.
Defined.

(** C10, as the specification states it, fails in its second half: the
    float32 mask is below the threshold 0.1000000015 at the one pixel, so the
    pixel lies in the union of the below-threshold regions, yet in both
    orders it keeps the value 0.0 of the sampled image. *)
Lemma create_masked_stipple_union_misses_float32_pixel :
  getitem black_dot 0 0 = Some zero ∧ getitem mask32 0 0 = Some tenth32 ∧
  SFltb tenth32 just_above_tenth32 = true ∧
  (to_Q tenth32 < to_Q just_above_tenth32)%Q ∧
  ((x ← create_masked_stipple 1 2 just_above_tenth32;
    r ← create_masked_stipple x 3 just_above_tenth32;
    a ← deref r; mret (getitem a 0 0)) store32).1 = Ok (Some zero) ∧
  ((x ← create_masked_stipple 1 3 just_above_tenth32;
    r ← create_masked_stipple x 2 just_above_tenth32;
    a ← deref r; mret (getitem a 0 0)) store32).1 = Ok (Some zero).
Proof. split_and!; reflexivity. Qed.

Lemma outputs_in_unit_interval_witness :
  in_unit_at (create_masked_stipple 1 2 half store4).2 5 ∧
  in_unit_at (create_block_letter_s (H := one_font) 4 6 "S" default_font_size_ratio ∅).2 1 ∧
  Forall (in_unit_at (panel_data (H := one_font) 1 2 4 3 store4).2) [1; 2; 5; 3]%positive.
Proof.
  destruct (outputs_in_unit_interval (H := one_font)) as (Happ & Hsyn & Hrec).
  split_and!.
  - apply (Happ store4 1%positive 2%positive half 5%positive).
    + exists stipple. split; [reflexivity|]. repeat constructor.
    + vm_compute. reflexivity.
  - apply (Hsyn ∅ 4 6 "S"%string default_font_size_ratio 1%positive).
    vm_compute. reflexivity.
  - apply (Hrec store4 1%positive 2%positive 4%positive 3%positive).
    + exists stipple. split; [reflexivity|]. repeat constructor.
    + exists mask_a. split; [reflexivity|]. repeat constructor.
    + exists strip. split; [reflexivity|]. repeat constructor.
    + exists mask_b. split; [reflexivity|]. repeat constructor.
    + vm_compute. reflexivity.
Defined.

Lemma create_block_letter_s_image_witness :
  ∃ l img,
    create_block_letter_s (H := one_font) 4 6 "S" default_font_size_ratio ∅
      = (Ok l, <[l := img]> ∅) ∧
    (∅ : heap) !! l = None ∧
    dtype_of img = float32 ∧
    shape img = (Z.to_nat 4, Z.to_nat 6) ∧ well_formed img ∧
    Forall (λ v, in_unit v = true) (data img) ∧
    font_size_of 4 6 default_font_size_ratio = Ok 3 ∧
    (∀ (i : nat) p f,
       font_paths !! i = Some p → path_exists (Pillow := one_font) p = true →
       truetype (Pillow := one_font) p 3 = Some f →
       (∀ j q, (j < i)%nat → font_paths !! j = Some q →
          path_exists (Pillow := one_font) q = false ∨
          truetype (Pillow := one_font) q 3 = None) →
       select_font (H := one_font) 3 = f) ∧
    ((∀ q, q ∈ font_paths →
        path_exists (Pillow := one_font) q = false ∨
        truetype (Pillow := one_font) q 3 = None) →
     (∀ f, truetype (Pillow := one_font) "arial.ttf" 3 = Some f →
           select_font (H := one_font) 3 = f) ∧
     (truetype (Pillow := one_font) "arial.ttf" 3 = None →
      select_font (H := one_font) 3 = load_default)) ∧
    ∃ b0 b1 b2 b3 x y,
      (0, 0, 3, 3) = (b0, b1, b2, b3) ∧
      text_origin 4 6 (0, 0, 3, 3) = (x, y) ∧
      0 ≤ (6 - (x + b2)) - (x + b0) ≤ 1 ∧
      0 ≤ (4 - (y + b3)) - (y + b1) ≤ 1 ∧
      ∀ i j, (i < Z.to_nat 4)%nat → (j < Z.to_nat 6)%nat →
        let b := square_ink 3 (1, 0) "000"%byte (j, i) "255"%byte in
        getitem img i j = Some (div float32 (of_Z (byte_to_Z b)) f255) ∧
        (b = "255"%byte → getitem img i j = Some one) ∧
        (b = "000"%byte → getitem img i j = Some zero).
Proof.
  apply (create_block_letter_s_image (H := one_font) ∅ 4 6 "S" default_font_size_ratio
           3 (0, 0, 3, 3) (square_ink 3 (1, 0) "000"%byte)); [lia|lia|reflexivity..].
Defined.

(** C6, as the specification states it, fails: a height of 1 and a width of
    2^31 are positive and the ratio 0.9 lies in (0, 1], yet the call returns
    no image but raises the OverflowError of [Image.new]. *)
Lemma create_block_letter_s_wide_canvas_raises :
  0 < 1 ∧ 0 < 2 ^ 31 ∧
  SFltb zero default_font_size_ratio = true ∧ SFleb default_font_size_ratio one = true ∧
  create_block_letter_s (H := one_font) 1 (2 ^ 31) "S" default_font_size_ratio ∅
    = (Raise (OverflowError "Python int too large to convert to C int"), ∅).
Proof. split_and!; reflexivity. Qed.

(** C7, as the specification states it, fails: with a height of zero the call
    raises nothing and returns an image of shape (0, 5). *)
Lemma create_block_letter_s_zero_height_returns :
  (0 ≤ 0 ∨ 5 ≤ 0) ∧
  create_block_letter_s (H := no_font) 0 5 "S" default_font_size_ratio ∅
    = (Ok 1%positive, {[1%positive := mk_ndarray float32 (0, 5)%nat []]}).
Proof. split; [lia|]. vm_compute. reflexivity. Qed.

Lemma create_block_letter_s_nonpositive_witness :
  create_block_letter_s (H := no_font) (-1) 5 "S" default_font_size_ratio ∅
    = (Raise (ValueError "Width and height must be >= 0"), ∅) ∧
  font_size_of 0 5 default_font_size_ratio = Ok 0 ∧
  ∃ l img,
    create_block_letter_s (H := no_font) 0 5 "S" default_font_size_ratio ∅
      = (Ok l, <[l := img]> ∅) ∧
    (∅ : heap) !! l = None ∧
    shape img = (Z.to_nat 0, Z.to_nat 5) ∧ data img = [].
Proof.
  split.
  - apply (create_block_letter_s_nonpositive (H := no_font) ∅ (-1) 5 "S"
             default_font_size_ratio); lia.
  - apply (proj2 (create_block_letter_s_nonpositive (H := no_font) ∅ 0 5 "S"
                    default_font_size_ratio ltac:(lia))
             ltac:(lia) ltac:(lia) eq_refl eq_refl
             (0, 0, 10, 10) (square_ink 10 (text_origin 0 5 (0, 0, 10, 10)) "000"%byte));
      reflexivity.
Defined.

Lemma panel_data_reconciled_witness :
  ∃ l1' l2' l3' h',
    panel_data (H := one_font) 1 2 4 3 store4 = (Ok [1%positive; l1'; l2'; l3'], h') ∧
    h' !! 1%positive = Some stipple ∧
    (∀ k b, store4 !! k = Some b → h' !! k = Some b) ∧
    reconciled (H := one_font) h' (shape stipple) 2 mask_a l1' ∧
    reconciled (H := one_font) h' (shape stipple) 4 strip l2' ∧
    reconciled (H := one_font) h' (shape stipple) 3 mask_b l3'.
Proof.
  apply (panel_data_reconciled (H := one_font) store4 1 2 4 3 stipple mask_a strip mask_b).
  - exact one_font_resize_exact.
  - reflexivity.
  - reflexivity.
  - reflexivity.
  - reflexivity.
  - cbn; lia.
  - split; [reflexivity|cbn; lia].
  - split; [reflexivity|cbn; lia].
  - split; [reflexivity|cbn; lia].
  - repeat constructor.
  - repeat constructor.
  - repeat constructor.
Defined.

End Witnesses.


(** * Further properties of the three modules *)

(** ** Order of IEEE values *)

Section FloatOrder.

Lemma SFltb_leb_trans (x y z : spec_float) :
  SFltb x y = true → SFleb y z = true → SFltb x z = true.
Proof.
  unfold SFltb, SFleb, SFcompare.
  destruct x as [sx|sx| |sx mx ex], y as [sy|sy| |sy my ey], z as [sz|sz| |sz mz ez];
    try done;
    try destruct sx; try destruct sy; try destruct sz; try done;
    intros Hxy Hyz;
    repeat match goal with
    | H : context [Z.compare ?a ?b] |- _ => destruct (Z.compare_spec a b)
    | |- context [Z.compare ?a ?b] => destruct (Z.compare_spec a b)
    | H : context [Pos.compare_cont Eq ?a ?b] |- _ =>
        change (Pos.compare_cont Eq a b) with (Pos.compare a b) in *;
        destruct (Pos.compare_spec a b)
    | |- context [Pos.compare_cont Eq ?a ?b] =>
        change (Pos.compare_cont Eq a b) with (Pos.compare a b) in *;
        destruct (Pos.compare_spec a b)
    end; simpl in *; try done; try lia.
Qed.

Lemma SFltb_nan_r (x : spec_float) : SFltb x S754_nan = false.
Proof. by destruct x. Qed.

Lemma SFltb_nan_l (x : spec_float) : SFltb S754_nan x = false.
Proof. done. Qed.

End FloatOrder.

(** ** More on the Mask Applicator *)

Section ApplicatorEdges.
Import IEEE Py np PyM step5.

Implicit Types (h : heap) (s m r : ndarray) (t : spec_float).

Lemma masked_fill_none_selected (mask : list bool) v (xs : list spec_float) :
  length mask = length xs → Forall (λ b, b = false) mask →
  masked_fill mask v xs = xs.
Proof.
  intros Hl Hm. apply list_eq. intros k. rewrite masked_fill_lookup.
  destruct (mask !! k) as [b|] eqn:Hb.
  - rewrite (Forall_lookup_1 _ _ _ _ Hm Hb). cbn. by destruct (xs !! k).
  - cbn. symmetry. apply lookup_ge_None. apply lookup_ge_None in Hb. lia.
Qed.

Lemma masked_fill_all_selected (mask : list bool) v (xs : list spec_float) :
  length mask = length xs → Forall (λ b, b = true) mask →
  masked_fill mask v xs = replicate (length xs) v.
Proof.
  intros Hl Hm. apply list_eq. intros k. rewrite masked_fill_lookup.
  destruct (mask !! k) as [b|] eqn:Hb.
  - rewrite (Forall_lookup_1 _ _ _ _ Hm Hb). cbn.
    destruct (lookup_lt_is_Some_2 xs k) as [x Hx].
    { rewrite <- Hl. by eapply lookup_lt_Some. }
    rewrite Hx. cbn. symmetry. apply lookup_replicate_2. by eapply lookup_lt_Some.
  - cbn. symmetry. apply lookup_ge_None. rewrite length_replicate.
    apply lookup_ge_None in Hb. lia.
Qed.

Lemma lt_scalar_length m t : length (lt_scalar m t) = length (data m).
Proof. unfold lt_scalar. by rewrite length_fmap. Qed.

Lemma same_shape_same_length s m :
  well_formed s → well_formed m → shape s = shape m → length (data m) = length (data s).
Proof. unfold well_formed. congruence. Qed.

Lemma masked_value_nothing_below s m t :
  well_formed s → well_formed m → shape s = shape m →
  Forall (λ y, SFltb y (as_dtype (dtype_of m) t) = false) (data m) →
  masked_value s m t = s.
Proof.
  intros Hs Hm Hsh Hall. unfold masked_value.
  rewrite masked_fill_none_selected.
  - by destruct s.
  - rewrite lt_scalar_length. by apply same_shape_same_length.
  - unfold lt_scalar. by apply Forall_fmap.
Qed.

(** X1. A mask that is nowhere below the threshold, the threshold being
    compared in the dtype of the mask, erases nothing: the call returns a new
    object whose value is that of the sampled image. *)
Theorem create_masked_stipple_mask_nowhere_below h ls lm s m t :
  h !! ls = Some s → h !! lm = Some m →
  well_formed s → well_formed m → shape s = shape m →
  Forall (λ y, SFltb y (as_dtype (dtype_of m) t) = false) (data m) →
  ∃ l, create_masked_stipple ls lm t h = (Ok l, <[l := s]> h) ∧ h !! l = None ∧ l ≠ ls.
Proof.
  intros Hs Hm Hwfs Hwfm Hsh Hall. exists (fresh (dom h)).
  assert (Hfr : h !! fresh (dom h) = None) by apply fresh_not_allocated.
  split_and!.
  - rewrite (create_masked_stipple_run h ls lm s m t) by done.
    by rewrite masked_value_nothing_below.
  - done.
  - intros Heq. rewrite Heq in Hfr. congruence.
Qed.

(** X2. A mask that is everywhere below the threshold, the threshold being
    compared in the dtype of the mask, erases everything: the returned image
    has the shape and dtype of the sampled image and holds 1.0 in every
    pixel. *)
Theorem create_masked_stipple_mask_everywhere_below h ls lm s m t :
  h !! ls = Some s → h !! lm = Some m →
  well_formed s → well_formed m → shape s = shape m →
  Forall (λ y, SFltb y (as_dtype (dtype_of m) t) = true) (data m) →
  ∃ l, create_masked_stipple ls lm t h
         = (Ok l, <[l := mk_ndarray (dtype_of s) (shape s)
                           (replicate (size_of (shape s)) one)]> h) ∧
       h !! l = None.
Proof.
  intros Hs Hm Hwfs Hwfm Hsh Hall. exists (fresh (dom h)). split.
  - rewrite (create_masked_stipple_run h ls lm s m t) by done.
    unfold masked_value. rewrite masked_fill_all_selected.
    + by rewrite Hwfs.
    + rewrite lt_scalar_length. by apply same_shape_same_length.
    + unfold lt_scalar. by apply Forall_fmap.
  - apply fresh_not_allocated.
Qed.

(** X3. NaN never erases.  With a NaN threshold the returned image equals the
    sampled image whatever the mask holds; and with any threshold a pixel
    whose mask value is NaN is preserved. *)
Theorem create_masked_stipple_nan_erases_nothing h ls lm s m :
  h !! ls = Some s → h !! lm = Some m →
  well_formed s → well_formed m → shape s = shape m →
  (∃ l, create_masked_stipple ls lm S754_nan h = (Ok l, <[l := s]> h)) ∧
  (∀ t, ∃ l r, create_masked_stipple ls lm t h = (Ok l, <[l := r]> h) ∧
      ∀ i j, getitem m i j = Some S754_nan → getitem r i j = getitem s i j).
Proof.
  intros Hs Hm Hwfs Hwfm Hsh. split.
  - exists (fresh (dom h)).
    rewrite (create_masked_stipple_run h ls lm s m S754_nan) by done.
    rewrite masked_value_nothing_below; [done..|].
    apply Forall_true. intros y. destruct (dtype_of m); apply SFltb_nan_r.
  - intros t. exists (fresh (dom h)), (masked_value s m t). split.
    + by apply create_masked_stipple_run.
    + intros i j Hy.
      destruct (getitem_Some_bounds m i j _ Hy) as [Hi Hj]. rewrite <- Hsh in Hi, Hj.
      destruct (getitem_in_bounds s i j) as (x & Hx & _); [done..|].
      rewrite (getitem_masked_value s m t i j x S754_nan) by done.
      by rewrite Hx.
Qed.

Lemma masked_fill_looser (m : ndarray) t1 t2 v (xs : list spec_float) :
  SFleb (as_dtype (dtype_of m) t1) (as_dtype (dtype_of m) t2) = true →
  masked_fill (lt_scalar m t2) v (masked_fill (lt_scalar m t1) v xs)
    = masked_fill (lt_scalar m t2) v xs ∧
  masked_fill (lt_scalar m t1) v (masked_fill (lt_scalar m t2) v xs)
    = masked_fill (lt_scalar m t2) v xs.
Proof.
  intros Hle. split; apply list_eq; intros k; rewrite !masked_fill_lookup;
    unfold lt_scalar; rewrite !list_lookup_fmap;
    destruct (data m !! k) as [y|]; cbn; try done;
    destruct (xs !! k) as [x|]; cbn; try done;
    destruct (SFltb y (as_dtype (dtype_of m) t1)) eqn:H1;
    try rewrite (SFltb_leb_trans y _ _ H1 Hle);
    destruct (SFltb y (as_dtype (dtype_of m) t2)); done.
Qed.

(** X4. Thresholds compose: for t1 <= t2, as the mask sees them (both
    converted to its dtype), applying the mask at t1 and then at t2, or at t2
    and then at t1, gives the image that one application at t2 gives.  A
    higher threshold never brings a pixel back. *)
Theorem create_masked_stipple_looser_threshold_wins h ls lm s m t1 t2 :
  h !! ls = Some s → h !! lm = Some m → shape s = shape m →
  SFleb (as_dtype (dtype_of m) t1) (as_dtype (dtype_of m) t2) = true →
  ∃ la ha lb hb l h' r,
    (x ← create_masked_stipple ls lm t1; create_masked_stipple x lm t2) h = (Ok la, ha) ∧
    (x ← create_masked_stipple ls lm t2; create_masked_stipple x lm t1) h = (Ok lb, hb) ∧
    create_masked_stipple ls lm t2 h = (Ok l, h') ∧
    ha !! la = Some r ∧ hb !! lb = Some r ∧ h' !! l = Some r.
Proof.
  intros Hs Hm Hsh Hle.
  assert (Hstep : ∀ ta tb,
    ∃ l2 h2, (x ← create_masked_stipple ls lm ta; create_masked_stipple x lm tb) h
               = (Ok l2, h2) ∧
             h2 !! l2 = Some (masked_value (masked_value s m ta) m tb)).
  { intros ta tb.
    assert (Hfr : h !! fresh (dom h) = None) by apply fresh_not_allocated.
    set (h1 := <[fresh (dom h) := masked_value s m ta]> h).
    exists (fresh (dom h1)), (<[fresh (dom h1) := masked_value (masked_value s m ta) m tb]> h1).
    split; [|apply lookup_insert_eq].
    rewrite (bind_Ok _ _ h h1 (fresh (dom h))) by by apply create_masked_stipple_run.
    apply create_masked_stipple_run; [apply lookup_insert_eq| |done].
    unfold h1. rewrite lookup_insert_ne; [done|]. intros Heq. rewrite Heq in Hfr. congruence. }
  destruct (Hstep t1 t2) as (la & ha & Hra & Ha).
  destruct (Hstep t2 t1) as (lb & hb & Hrb & Hb).
  destruct (masked_fill_looser m t1 t2 one (data s) Hle) as [E12 E21].
  exists la, ha, lb, hb, (fresh (dom h)), (<[fresh (dom h) := masked_value s m t2]> h),
    (masked_value s m t2).
  split_and!; [done|done|by apply create_masked_stipple_run| | |apply lookup_insert_eq].
  - rewrite Ha. unfold masked_value; cbn [data shape dtype_of]. by rewrite E12.
  - rewrite Hb. unfold masked_value; cbn [data shape dtype_of]. by rewrite E21.
Qed.

End ApplicatorEdges.

(** ** More on the Mask Synthesizer *)

Section SynthesizerEdges.
Import IEEE Py np PyM PIL step4.
Context `{Pillow}.

Implicit Types (h : heap) (height width : Z) (letter : string) (r : spec_float).

(** X5. The font files are tried in the order of the list.  The letter is
    drawn with the first file that both exists and loads at the requested
    size: a file that exists but does not load does not stop the search.  Only
    when no listed file does, "arial.ttf" is tried, and the default font is
    used when that fails too. *)
Theorem select_font_first_match (font_size : Z) :
  (∀ (i : nat) p f,
     font_paths !! i = Some p → path_exists p = true → truetype p font_size = Some f →
     (∀ j q, (j < i)%nat → font_paths !! j = Some q →
        path_exists q = false ∨ truetype q font_size = None) →
     select_font font_size = f) ∧
  ((∀ q, q ∈ font_paths → path_exists q = false ∨ truetype q font_size = None) →
   select_font font_size = default load_default (truetype "arial.ttf" font_size)).
Proof.
  split.
  - intros i p f Hi Hex Hld Hbefore. unfold select_font.
    by rewrite (first_font_first_match font_paths font_size i p f).
  - intros Hall. unfold select_font. rewrite first_font_none by done.
    by destruct (truetype "arial.ttf" font_size).
Qed.

Lemma float_of_int_nonneg (n : Z) :
  0 ≤ n < 2 ^ 1000 →
  ∃ x, float_of_int n = Ok x ∧
       (x = S754_zero false ∨ ∃ m e, x = S754_finite false m e).
Proof.
  intros [Hn0 Hn]. destruct (decide (n = 0)) as [->|Hne].
  - exists (S754_zero false). split; [done|by left].
  - destruct (of_Z_finite n 1000) as [Hx|(m & e & Hx & _)]; [lia..| |].
    + exists (S754_zero false). unfold float_of_int. rewrite Hx. split; [done|by left].
    + exists (S754_finite false m e). unfold float_of_int. rewrite Hx.
      split; [done|right; by exists m, e].
Qed.

(** X6. On a canvas that [Image.new] provides (sides from 0 up to the C int
    range), a ratio that is not a number, or is infinite, makes the call
    raise before anything is measured or drawn: for NaN the ValueError of
    [int()], for an infinity an error of [int()] as well.  The heap is left
    as it was. *)
Theorem create_block_letter_s_ratio_not_finite h height width letter :
  0 ≤ height < 2 ^ 31 → 0 ≤ width < 2 ^ 31 →
  core_fill (Z.to_nat width) (Z.to_nat height) = Ok () →
  create_block_letter_s height width letter S754_nan h
    = (Raise (ValueError "cannot convert float NaN to integer"), h) ∧
  ∀ s, ∃ e, create_block_letter_s height width letter (S754_infinity s) h = (Raise e, h) ∧
            font_size_of height width (S754_infinity s) = Raise e.
Proof.
  intros Hh Hw Hfill. pose proof pow_31_lt_1000.
  destruct (float_of_int_nonneg (Z.min height width)) as (x & Hx & Hcase); [lia|].
  split.
  - rewrite create_block_letter_s_stages, (Image_new_blank width height) by done.
    unfold font_size_of. rewrite Hx.
    by destruct Hcase as [->|(m & e & ->)].
  - intros s. rewrite create_block_letter_s_stages, (Image_new_blank width height) by done.
    unfold font_size_of. rewrite Hx.
    destruct Hcase as [->|(m & e & ->)]; cbn; eauto.
Qed.

(** X7. Whatever the arguments, a call either allocates exactly one new
    float32 array of shape (height, width) and changes no array that existed,
    or raises and leaves the heap as it was.  The exception is then that of
    the first stage that raises: [Image.new] on the size, the computation of
    the font size, the measurement of the letter, or its drawing. *)
Theorem create_block_letter_s_allocates_one h height width letter r :
  ∃ res h',
    create_block_letter_s height width letter r h = (res, h') ∧
    match res with
    | Ok l =>
        h !! l = None ∧ 0 ≤ height < 2 ^ 31 ∧ 0 ≤ width < 2 ^ 31 ∧
        ∃ img, h' = <[l := img]> h ∧ dtype_of img = float32 ∧
               shape img = (Z.to_nat height, Z.to_nat width) ∧ well_formed img
    | Raise e =>
        h' = h ∧
        (Image_new width height "255"%byte = Raise e ∨
         ∃ img, Image_new width height "255"%byte = Ok img ∧
           (font_size_of height width r = Raise e ∨
            ∃ font_size, font_size_of height width r = Ok font_size ∧
              (textbbox (select_font font_size) letter = Raise e ∨
               ∃ bbox, textbbox (select_font font_size) letter = Ok bbox ∧
                 text_ink (select_font font_size) letter
                   (text_origin height width bbox) "000"%byte = Raise e)))
    | Dangling => h' = h
    end.
Proof.
  rewrite create_block_letter_s_stages.
  destruct (Image_new width height "255"%byte) as [img|e|] eqn:Himg;
    [|eexists _, _; split; [done|]; split; [done|by left]|by eexists _, _].
  assert (Hdims : 0 ≤ height < 2 ^ 31 ∧ 0 ≤ width < 2 ^ 31 ∧
                  img = blank (Z.to_nat width) (Z.to_nat height) "255"%byte).
  { unfold Image_new in Himg. repeat case_decide; try done.
    destruct (core_fill _ _) as [[]| |]; [|done..].
    injection Himg as <-. split_and!; [lia..|done]. }
  destruct Hdims as (Hh & Hw & ->).
  destruct (font_size_of height width r) as [font_size|e|] eqn:Hfs;
    [|eexists _, _; split; [done|]; split; [done|]; right; eexists; split; [done|by left]
     |by eexists _, _].
  destruct (textbbox (select_font font_size) letter) as [bbox|e|] eqn:Hbb;
    [|eexists _, _; split; [done|]; split; [done|]; right; eexists; split; [done|];
      right; eexists; split; [done|by left]
     |by eexists _, _].
  destruct (text_ink (select_font font_size) letter _ _) as [ink|e|] eqn:Hink;
    [|eexists _, _; split; [done|]; split; [done|]; right; eexists; split; [done|];
      right; eexists; split; [done|]; right; eexists; split; done
     |by eexists _, _].
  eexists _, _. split; [done|]. split_and!; [apply fresh_not_allocated|lia..|].
  eexists. split_and!; [done|done|done|].
  apply div_255_to_array_well_formed, paint_blank_length.
Qed.

(** X8. When the ink of a text lies inside its bounding box, as Pillow
    documents, and the call returns, every pixel outside the centred box of
    the letter is white: the box starts at column (width - text_width) // 2
    and row (height - text_height) // 2 and has the size of the letter's
    box. *)
Theorem create_block_letter_s_white_outside_box h height width letter r l h' :
  ink_within_bbox →
  create_block_letter_s height width letter r h = (Ok l, h') →
  ∃ img font_size b0 b1 b2 b3,
    h' = <[l := img]> h ∧
    shape img = (Z.to_nat height, Z.to_nat width) ∧
    font_size_of height width r = Ok font_size ∧
    textbbox (select_font font_size) letter = Ok (b0, b1, b2, b3) ∧
    ∀ i j, (i < Z.to_nat height)%nat → (j < Z.to_nat width)%nat →
      ¬ ((width - (b2 - b0)) `div` 2 ≤ Z.of_nat j < (width - (b2 - b0)) `div` 2 + (b2 - b0) ∧
         (height - (b3 - b1)) `div` 2 ≤ Z.of_nat i < (height - (b3 - b1)) `div` 2 + (b3 - b1)) →
      getitem img i j = Some one.
Proof.
  intros Hpil. rewrite create_block_letter_s_stages.
  destruct (Image_new width height "255"%byte) as [img| |] eqn:Himg; [|done..].
  assert (img = blank (Z.to_nat width) (Z.to_nat height) "255"%byte) as ->.
  { unfold Image_new in Himg. repeat case_decide; try done.
    destruct (core_fill _ _) as [[]| |]; [|done..]. by injection Himg as <-. }
  destruct (font_size_of height width r) as [font_size| |] eqn:Hfs; [|done..].
  destruct (textbbox (select_font font_size) letter) as [[[[b0 b1] b2] b3]| |] eqn:Hbb;
    [|done..].
  destruct (text_ink (select_font font_size) letter _ _) as [ink| |] eqn:Hink; [|done..].
  intros [= <- <-]. eexists _, font_size, b0, b1, b2, b3. split_and!; [done..|].
  intros i j Hi Hj Hout. rewrite getitem_block_letter by done.
  rewrite (Hpil _ _ _ _ _ _ _ _ _ _ _ Hbb Hink); [done|].
  cbn [text_origin fst snd]. lia.
Qed.

(** X16. A side of 2^31 or more (none negative) does not fit the C int that
    [Image.new] takes: the call raises an OverflowError before the ratio is
    looked at, whatever the other arguments, and allocates nothing. *)
Theorem create_block_letter_s_side_overflows h height width letter r :
  0 ≤ height → 0 ≤ width → 2 ^ 31 ≤ height ∨ 2 ^ 31 ≤ width →
  ∃ msg, create_block_letter_s height width letter r h = (Raise (OverflowError msg), h).
Proof.
  intros Hh Hw Hbig. rewrite create_block_letter_s_stages.
  destruct (Image_new_overflow width height "255"%byte Hw Hh Hbig) as [msg ->].
  by exists msg.
Qed.

End SynthesizerEdges.


(** ** More on the reconciliation of the panels *)

Section ReconciliationEdges.
Import IEEE Py np PyM PIL step4 step5 create_meme.
Context `{Pillow}.

Implicit Types (h : heap) (a o : ndarray).

(** X9. When the three panels already have the shape of the original, the
    reconciliation hands back the four given objects and leaves the heap as it
    was: nothing is copied and Pillow is not called, whatever the images hold
    (also for empty ones). *)
Theorem panel_data_matching_shapes_untouched h lo l1 l2 l3 o a1 a2 a3 :
  h !! lo = Some o → h !! l1 = Some a1 → h !! l2 = Some a2 → h !! l3 = Some a3 →
  shape a1 = shape o → shape a2 = shape o → shape a3 = shape o →
  panel_data lo l1 l2 l3 h = (Ok [lo; l1; l2; l3], h).
Proof.
  intros Hlo Hl1 Hl2 Hl3 Hs1 Hs2 Hs3. unfold panel_data.
  rewrite (bind_Ok _ _ h h o) by by apply deref_Some.
  destruct (shape o) as [th tw].
  rewrite (bind_Ok _ _ h h l1) by by apply (ensure_size_same h l1 a1).
  rewrite (bind_Ok _ _ h h l2) by by apply (ensure_size_same h l2 a2).
  by rewrite (bind_Ok _ _ h h l3) by by apply (ensure_size_same h l3 a3).
Qed.

(** X10. Reconciliation is idempotent: run again on the panels it returned,
    it returns the same four objects and allocates nothing more. *)
Theorem panel_data_idempotent h lo l1 l2 l3 o a1 a2 a3 :
  resize_exact →
  h !! lo = Some o → h !! l1 = Some a1 → h !! l2 = Some a2 → h !! l3 = Some a3 →
  (0 < (shape o).1)%nat ∧ (0 < (shape o).2)%nat →
  well_formed a1 ∧ (0 < (shape a1).1)%nat ∧ (0 < (shape a1).2)%nat →
  well_formed a2 ∧ (0 < (shape a2).1)%nat ∧ (0 < (shape a2).2)%nat →
  well_formed a3 ∧ (0 < (shape a3).1)%nat ∧ (0 < (shape a3).2)%nat →
  ∃ l1' l2' l3' h',
    panel_data lo l1 l2 l3 h = (Ok [lo; l1'; l2'; l3'], h') ∧
    panel_data lo l1' l2' l3' h' = (Ok [lo; l1'; l2'; l3'], h').
Proof.
  intros Hpil Hlo Hl1 Hl2 Hl3 [Hoh How] (Hwf1 & Hh1 & Hw1) (Hwf2 & Hh2 & Hw2)
    (Hwf3 & Hh3 & Hw3).
  destruct (shape o) as [th tw] eqn:Hso. cbn [fst snd] in Hoh, How.
  destruct (ensure_size_returns h l1 a1 th tw "stipple_img")
    as (l1' & h1 & b1 & Hrun1 & Hsub1 & Hb1 & Hsb1 & _); [done..|].
  destruct (ensure_size_returns h1 l2 a2 th tw "block_letter_img")
    as (l2' & h2 & b2 & Hrun2 & Hsub2 & Hb2 & Hsb2 & _); [by auto..|].
  destruct (ensure_size_returns h2 l3 a3 th tw "masked_stipple_img")
    as (l3' & h3 & b3 & Hrun3 & Hsub3 & Hb3 & Hsb3 & _); [by auto..|].
  apply Hsub2, Hsub3 in Hb1. apply Hsub3 in Hb2.
  exists l1', l2', l3', h3. split.
  - unfold panel_data. rewrite (bind_Ok _ _ h h o) by by apply deref_Some.
    rewrite Hso.
    rewrite (bind_Ok _ _ h h1 l1') by done.
    rewrite (bind_Ok _ _ h1 h2 l2') by done.
    by rewrite (bind_Ok _ _ h2 h3 l3') by done.
  - unfold panel_data. rewrite (bind_Ok _ _ h3 h3 o) by (apply deref_Some; auto).
    rewrite Hso.
    rewrite (bind_Ok _ _ h3 h3 l1') by by apply (ensure_size_same h3 l1' b1).
    rewrite (bind_Ok _ _ h3 h3 l2') by by apply (ensure_size_same h3 l2' b2).
    by rewrite (bind_Ok _ _ h3 h3 l3') by by apply (ensure_size_same h3 l3' b3).
Qed.

(** X11. [ensure_size] raises exactly when the shape differs from the target
    and Pillow's resize raises; the exception is Pillow's and the heap is left
    as it was.  It has no error of its own. *)
Theorem ensure_size_raises_iff_resize_raises h l a target_h target_w name e h' :
  h !! l = Some a →
  ensure_size l target_h target_w name h = (Raise e, h') ↔
  shape a ≠ (target_h, target_w) ∧
  resize_LANCZOS (Image_fromarray (shape a) (astype_uint8 <$> mul_255 a))
    (target_w, target_h) = Raise e ∧
  h' = h.
Proof.
  intros Hl. destruct (decide (shape a = (target_h, target_w))) as [Hsh|Hsh].
  - rewrite (ensure_size_same h l a) by done. split; [done|]. by intros [? _].
  - rewrite (ensure_size_resized h l a) by done.
    destruct (resize_LANCZOS _ _) as [out|e'|]; split; try done.
    + by intros (_ & ? & _).
    + intros [= -> ->]. done.
    + intros (_ & [= ->] & ->). done.
    + by intros (_ & ? & _).
Qed.

(** X12. Reconciliation fails fast.  When the resize of a panel raises and
    the panels before it have the shape of the original, the call raises that
    exception and leaves the heap as it was; the panels after it are not even
    looked up. *)
Theorem panel_data_fail_fast h lo o e :
  h !! lo = Some o →
  (∀ l1 l2 l3 a1,
     h !! l1 = Some a1 → shape a1 ≠ shape o →
     resize_LANCZOS (Image_fromarray (shape a1) (astype_uint8 <$> mul_255 a1))
       ((shape o).2, (shape o).1) = Raise e →
     panel_data lo l1 l2 l3 h = (Raise e, h)) ∧
  (∀ l1 l2 l3 a1 a2,
     h !! l1 = Some a1 → shape a1 = shape o →
     h !! l2 = Some a2 → shape a2 ≠ shape o →
     resize_LANCZOS (Image_fromarray (shape a2) (astype_uint8 <$> mul_255 a2))
       ((shape o).2, (shape o).1) = Raise e →
     panel_data lo l1 l2 l3 h = (Raise e, h)) ∧
  (∀ l1 l2 l3 a1 a2 a3,
     h !! l1 = Some a1 → shape a1 = shape o →
     h !! l2 = Some a2 → shape a2 = shape o →
     h !! l3 = Some a3 → shape a3 ≠ shape o →
     resize_LANCZOS (Image_fromarray (shape a3) (astype_uint8 <$> mul_255 a3))
       ((shape o).2, (shape o).1) = Raise e →
     panel_data lo l1 l2 l3 h = (Raise e, h)).
Proof.
  intros Hlo.
  assert (Hraise : ∀ l a name, h !! l = Some a → shape a ≠ shape o →
    resize_LANCZOS (Image_fromarray (shape a) (astype_uint8 <$> mul_255 a))
      ((shape o).2, (shape o).1) = Raise e →
    ensure_size l (shape o).1 (shape o).2 name h = (Raise e, h)).
  { intros l a name Hl Hsh Hres.
    rewrite (ensure_size_resized h l a) by (by destruct (shape o)). by rewrite Hres. }
  assert (Hsame : ∀ l a name, h !! l = Some a → shape a = shape o →
    ensure_size l (shape o).1 (shape o).2 name h = (Ok l, h)).
  { intros l a name Hl Hsh. apply (ensure_size_same h l a); [done|]. by destruct (shape o). }
  unfold panel_data. split_and!.
  - intros l1 l2 l3 a1 H1 Hs1 Hres.
    rewrite (bind_Ok _ _ h h o) by by apply deref_Some.
    destruct (shape o) as [th tw] eqn:Hso. cbn [fst snd] in *.
    unfold mbind at 1, py_bind. by rewrite (Hraise l1 a1).
  - intros l1 l2 l3 a1 a2 H1 Hs1 H2 Hs2 Hres.
    rewrite (bind_Ok _ _ h h o) by by apply deref_Some.
    destruct (shape o) as [th tw] eqn:Hso. cbn [fst snd] in *.
    rewrite (bind_Ok _ _ h h l1) by by apply (Hsame l1 a1).
    unfold mbind at 1, py_bind. by rewrite (Hraise l2 a2).
  - intros l1 l2 l3 a1 a2 a3 H1 Hs1 H2 Hs2 H3 Hs3 Hres.
    rewrite (bind_Ok _ _ h h o) by by apply deref_Some.
    destruct (shape o) as [th tw] eqn:Hso. cbn [fst snd] in *.
    rewrite (bind_Ok _ _ h h l1) by by apply (Hsame l1 a1).
    rewrite (bind_Ok _ _ h h l2) by by apply (Hsame l2 a2).
    unfold mbind at 1, py_bind. by rewrite (Hraise l3 a3).
Qed.

(** A byte turned into a float32 intensity and back is the same byte: the
    truncating cast loses no level. *)
Lemma uint8_round_trip (b : byte) :
  astype_uint8 (mul float32 (div float32 (of_Z (byte_to_Z b)) f255) f255) = b.
Proof. destruct b; vm_compute; reflexivity. Qed.

Lemma fromarray_of_quantized (img : image) :
  Image_fromarray (shape (div_255 (to_array_float32 img)))
    (astype_uint8 <$> mul_255 (div_255 (to_array_float32 img))) = img.
Proof.
  destruct img as [w hh px]. unfold Image_fromarray, mul_255.
  cbn [div_255 to_array_float32 shape data dtype_of im_width im_height im_pixels fst snd].
  f_equal. rewrite <- !list_fmap_compose.
  rewrite <- (list_fmap_id px) at 2. apply list_fmap_ext. intros _ b _.
  apply uint8_round_trip.
Qed.

(** X13. An image that came from 8 bits goes back to them unharmed: when the
    panel is [np.array(img, float32) / 255] for a Pillow image [img], as the
    Mask Synthesizer and [ensure_size] itself produce, a needed resize
    gives Pillow exactly [img], so the panel returned is the resized [img]
    divided by 255. *)
Theorem ensure_size_of_quantized_resizes_original h l (img : image) target_h target_w name :
  h !! l = Some (div_255 (to_array_float32 img)) →
  (im_height img, im_width img) ≠ (target_h, target_w) →
  ensure_size l target_h target_w name h =
    match resize_LANCZOS img (target_w, target_h) with
    | Ok out => (Ok (fresh (dom h)), <[fresh (dom h) := div_255 (to_array_float32 out)]> h)
    | Raise e => (Raise e, h)
    | Dangling => (Dangling, h)
    end.
Proof.
  intros Hl Hsh.
  rewrite (ensure_size_resized h l (div_255 (to_array_float32 img))) by done.
  by rewrite fromarray_of_quantized.
Qed.

(** X14. The masked image has the shape of the sampled image, so it needs
    no resize whenever the sampled image needs none: [ensure_size] hands the
    result of the Mask Applicator back as it is. *)
Theorem masked_stipple_needs_no_resize h ls lm s m t name :
  h !! ls = Some s → h !! lm = Some m → shape s = shape m →
  ∃ l h',
    create_masked_stipple ls lm t h = (Ok l, h') ∧
    ensure_size l (shape s).1 (shape s).2 name h' = (Ok l, h').
Proof.
  intros Hs Hm Hsh. eexists _, _. split.
  - by apply create_masked_stipple_run.
  - apply (ensure_size_same _ _ (masked_value s m t)); [apply lookup_insert_eq|].
    cbn [masked_value shape]. by destruct (shape s).
Qed.

(** X15. A block letter made with the dimensions of the sampled image is a
    mask the Mask Applicator accepts: whenever the Mask Synthesizer returns,
    the Mask Applicator called with its result does not meet the
    shape-mismatch error; it returns an image of the shape of the sampled
    image, which is left unchanged. *)
Theorem block_letter_fits_as_mask h ls s letter r t mask h1 :
  h !! ls = Some s →
  create_block_letter_s (Z.of_nat (shape s).1) (Z.of_nat (shape s).2) letter r h
    = (Ok mask, h1) →
  ∃ l res,
    create_masked_stipple ls mask t h1 = (Ok l, <[l := res]> h1) ∧
    h1 !! l = None ∧ shape res = shape s ∧
    h1 !! ls = Some s ∧ (<[l := res]> h1) !! ls = Some s.
Proof.
  intros Hs Hrun.
  destruct (create_block_letter_s_allocates_stage h _ _ letter r mask h1 Hrun)
    as (Hfr & mk & -> & Hshape).
  rewrite !Nat2Z.id in Hshape.
  assert (Hs1 : (<[mask := mk]> h) !! ls = Some s).
  { rewrite lookup_insert_ne; [done|]. intros ->. congruence. }
  assert (Hfr1 : (<[mask := mk]> h) !! fresh (dom (<[mask := mk]> h)) = None)
    by apply fresh_not_allocated.
  exists (fresh (dom (<[mask := mk]> h))), (masked_value s mk t). split_and!.
  - apply create_masked_stipple_run; [done|apply lookup_insert_eq|].
    rewrite Hshape. by destruct (shape s).
  - done.
  - done.
  - done.
  - rewrite lookup_insert_ne; [done|]. intros Heq. rewrite Heq in Hfr1. congruence.
Qed.

End ReconciliationEdges.


(** ** The further properties at concrete inputs *)

Section FurtherInstances.
Import IEEE Py np PyM PIL step4 step5 create_meme samples.

(** The square glyph keeps its ink inside its box. *)
Lemma one_font_ink_within_bbox : @ink_within_bbox one_font.
Proof.
  intros f text xy fill b0 b1 b2 b3 ink cr old Hbb Hink Hout.
  cbn [text_ink textbbox one_font] in *. injection Hbb as <- <- <- <-.
  unfold square_text_ink in Hink. case_decide; [done|]. injection Hink as <-.
  unfold square_ink. rewrite decide_False; [done|]. lia.
Qed.

Lemma create_masked_stipple_mask_nowhere_below_witness :
  ∃ l, create_masked_stipple 1 2 half scenario_store
         = (Ok l, <[l := all_black]> scenario_store) ∧
       scenario_store !! l = None ∧ l ≠ 1%positive.
Proof.
  apply (create_masked_stipple_mask_nowhere_below scenario_store 1 2 all_black all_white half);
    [reflexivity..|].
  apply Forall_replicate. reflexivity.
Defined.

Lemma create_masked_stipple_mask_everywhere_below_witness :
  ∃ l, create_masked_stipple 1 1 half scenario_store
         = (Ok l, <[l := mk_ndarray (dtype_of all_black) (shape all_black)
                           (replicate (size_of (shape all_black)) one)]> scenario_store) ∧
       scenario_store !! l = None.
Proof.
  apply (create_masked_stipple_mask_everywhere_below
           scenario_store 1 1 all_black all_black half); [reflexivity..|].
  apply Forall_replicate. reflexivity.
Defined.

Lemma create_masked_stipple_nan_erases_nothing_witness :
  (∃ l, create_masked_stipple 1 2 S754_nan store4 = (Ok l, <[l := stipple]> store4)) ∧
  (∀ t, ∃ l r, create_masked_stipple 1 2 t store4 = (Ok l, <[l := r]> store4) ∧
      ∀ i j, getitem mask_a i j = Some S754_nan → getitem r i j = getitem stipple i j).
Proof.
  apply (create_masked_stipple_nan_erases_nothing store4 1 2 stipple mask_a); reflexivity.
Defined.

Lemma create_masked_stipple_looser_threshold_wins_witness :
  ∃ la ha lb hb l h' r,
    (x ← create_masked_stipple 1 2 half; create_masked_stipple x 2 one) store4 = (Ok la, ha) ∧
    (x ← create_masked_stipple 1 2 one; create_masked_stipple x 2 half) store4 = (Ok lb, hb) ∧
    create_masked_stipple 1 2 one store4 = (Ok l, h') ∧
    ha !! la = Some r ∧ hb !! lb = Some r ∧ h' !! l = Some r.
Proof.
  apply (create_masked_stipple_looser_threshold_wins store4 1 2 stipple mask_a half one);
    reflexivity.
Defined.

Lemma select_font_first_match_witness :
  select_font (H := one_font) 45 = 45 ∧ select_font (H := no_font) 45 = 10.
Proof.
  split.
  - apply (proj1 (select_font_first_match (H := one_font) 45) 7%nat
             "/usr/share/fonts/truetype/dejavu/DejaVuSans-Bold.ttf"%string 45);
      [reflexivity..|].
    intros j q Hj Hq.
    do 7 (destruct j as [|j]; [injection Hq as <-; left; reflexivity|]). lia.
  - apply (proj2 (select_font_first_match (H := no_font) 45)).
    intros q _. left. reflexivity.
Defined.

Lemma create_block_letter_s_ratio_not_finite_witness :
  create_block_letter_s (H := no_font) 4 6 "S" S754_nan ∅
    = (Raise (ValueError "cannot convert float NaN to integer"), ∅) ∧
  ∀ s, ∃ e, create_block_letter_s (H := no_font) 4 6 "S" (S754_infinity s) ∅ = (Raise e, ∅) ∧
            font_size_of 4 6 (S754_infinity s) = Raise e.
Proof.
  apply (create_block_letter_s_ratio_not_finite (H := no_font) ∅ 4 6 "S");
    [lia|lia|reflexivity].
Defined.

Lemma create_block_letter_s_allocates_one_witness :
  ∃ res h',
    create_block_letter_s (H := one_font) 4 4 "S" (of_Z 10000) ∅ = (res, h') ∧
    match res with
    | Ok l =>
        (∅ : heap) !! l = None ∧ 0 ≤ 4 < 2 ^ 31 ∧ 0 ≤ 4 < 2 ^ 31 ∧
        ∃ img, h' = <[l := img]> ∅ ∧ dtype_of img = float32 ∧
               shape img = (Z.to_nat 4, Z.to_nat 4) ∧ well_formed img
    | Raise e =>
        h' = ∅ ∧
        (Image_new (H := one_font) 4 4 "255"%byte = Raise e ∨
         ∃ img, Image_new (H := one_font) 4 4 "255"%byte = Ok img ∧
           (font_size_of 4 4 (of_Z 10000) = Raise e ∨
            ∃ font_size, font_size_of 4 4 (of_Z 10000) = Ok font_size ∧
              (textbbox (Pillow := one_font) (select_font (H := one_font) font_size) "S"
                 = Raise e ∨
               ∃ bbox,
                 textbbox (Pillow := one_font) (select_font (H := one_font) font_size) "S"
                   = Ok bbox ∧
                 text_ink (Pillow := one_font) (select_font (H := one_font) font_size) "S"
                   (text_origin 4 4 bbox) "000"%byte = Raise e)))
    | Dangling => h' = ∅
    end.
Proof.
  exact (create_block_letter_s_allocates_one (H := one_font) ∅ 4 4 "S" (of_Z 10000)).
Defined.

Lemma create_block_letter_s_white_outside_box_witness :
  ∃ img font_size b0 b1 b2 b3,
    ({[1%positive := div_255 (to_array_float32
        (paint (blank 6 4 "255"%byte) (square_ink 3 (1, 0) "000"%byte)))]} : heap)
      = <[1%positive := img]> ∅ ∧
    shape img = (Z.to_nat 4, Z.to_nat 6) ∧
    font_size_of 4 6 default_font_size_ratio = Ok font_size ∧
    textbbox (Pillow := one_font) (select_font (H := one_font) font_size) "S"
      = Ok (b0, b1, b2, b3) ∧
    ∀ i j, (i < Z.to_nat 4)%nat → (j < Z.to_nat 6)%nat →
      ¬ ((6 - (b2 - b0)) `div` 2 ≤ Z.of_nat j < (6 - (b2 - b0)) `div` 2 + (b2 - b0) ∧
         (4 - (b3 - b1)) `div` 2 ≤ Z.of_nat i < (4 - (b3 - b1)) `div` 2 + (b3 - b1)) →
      getitem img i j = Some one.
Proof.
  apply (create_block_letter_s_white_outside_box (H := one_font) ∅ 4 6 "S"
           default_font_size_ratio 1%positive);
    [exact one_font_ink_within_bbox|reflexivity].
Defined.

Lemma create_block_letter_s_side_overflows_witness :
  ∃ msg, create_block_letter_s (H := one_font) (2 ^ 31) 1 "S" S754_nan ∅
           = (Raise (OverflowError msg), ∅).
Proof.
  apply (create_block_letter_s_side_overflows (H := one_font) ∅ (2 ^ 31) 1 "S" S754_nan);
    [done|done|left; done].
Defined.

Lemma panel_data_matching_shapes_untouched_witness :
  panel_data (H := one_font) 1 2 3 2 store4 = (Ok [1; 2; 3; 2]%positive, store4).
Proof.
  apply (panel_data_matching_shapes_untouched (H := one_font) store4 1 2 3 2
           stipple mask_a mask_b mask_a); reflexivity.
Defined.

Lemma panel_data_idempotent_witness :
  ∃ l1' l2' l3' h',
    panel_data (H := one_font) 1 2 4 3 store4 = (Ok [1%positive; l1'; l2'; l3'], h') ∧
    panel_data (H := one_font) 1 l1' l2' l3' h' = (Ok [1%positive; l1'; l2'; l3'], h').
Proof.
  apply (panel_data_idempotent (H := one_font) store4 1 2 4 3 stipple mask_a strip mask_b).
  - exact one_font_resize_exact.
  - reflexivity.
  - reflexivity.
  - reflexivity.
  - reflexivity.
  - cbn; lia.
  - split; [reflexivity|cbn; lia].
  - split; [reflexivity|cbn; lia].
  - split; [reflexivity|cbn; lia].
Defined.

Lemma ensure_size_raises_iff_resize_raises_witness :
  ensure_size (H := one_font) 4 0 3 "stipple_img" store5
    = (Raise (ValueError "height and width must be > 0"), store5) ↔
  shape strip ≠ (0, 3)%nat ∧
  resize_LANCZOS (Pillow := one_font)
    (Image_fromarray (shape strip) (astype_uint8 <$> mul_255 strip)) (3, 0)%nat
    = Raise (ValueError "height and width must be > 0") ∧
  store5 = store5.
Proof.
  apply (ensure_size_raises_iff_resize_raises (H := one_font) store5 4 strip 0 3
           "stipple_img" (ValueError "height and width must be > 0") store5).
  reflexivity.
Defined.

Lemma panel_data_fail_fast_witness :
  panel_data (H := one_font) 5 4 2 3 store5
    = (Raise (ValueError "height and width must be > 0"), store5).
Proof.
  apply (proj1 (panel_data_fail_fast (H := one_font) store5 5 no_rows
                  (ValueError "height and width must be > 0") eq_refl)
           4%positive 2%positive 3%positive strip); [reflexivity| |reflexivity].
  intros [=].
Defined.

Lemma ensure_size_of_quantized_resizes_original_witness :
  ensure_size (H := one_font) 1 2 2 "block_letter_img" store_quantized =
    match resize_LANCZOS (Pillow := one_font) two_pixels (2, 2)%nat with
    | Ok out => (Ok (fresh (dom store_quantized)),
                 <[fresh (dom store_quantized) := div_255 (to_array_float32 out)]>
                   store_quantized)
    | Raise e => (Raise e, store_quantized)
    | Dangling => (Dangling, store_quantized)
    end.
Proof.
  apply (ensure_size_of_quantized_resizes_original (H := one_font)
           store_quantized 1 two_pixels 2 2 "block_letter_img"); [reflexivity|].
  intros [=].
Defined.

Lemma masked_stipple_needs_no_resize_witness :
  ∃ l h',
    create_masked_stipple 1 2 half store4 = (Ok l, h') ∧
    ensure_size (H := one_font) l (shape stipple).1 (shape stipple).2
      "masked_stipple_img" h' = (Ok l, h').
Proof.
  apply (masked_stipple_needs_no_resize (H := one_font) store4 1 2 stipple mask_a half
           "masked_stipple_img"); reflexivity.
Defined.

Lemma block_letter_fits_as_mask_witness :
  ∃ l res,
    create_masked_stipple 1 5 half
      (create_block_letter_s (H := one_font) 2 2 "S" default_font_size_ratio store4).2
      = (Ok l, <[l := res]>
           (create_block_letter_s (H := one_font) 2 2 "S" default_font_size_ratio store4).2) ∧
    (create_block_letter_s (H := one_font) 2 2 "S" default_font_size_ratio store4).2 !! l
      = None ∧
    shape res = shape stipple ∧
    (create_block_letter_s (H := one_font) 2 2 "S" default_font_size_ratio store4).2
      !! 1%positive = Some stipple ∧
    (<[l := res]>
       (create_block_letter_s (H := one_font) 2 2 "S" default_font_size_ratio store4).2)
      !! 1%positive = Some stipple.
Proof.
  apply (block_letter_fits_as_mask (H := one_font) store4 1 stipple "S"
           default_font_size_ratio half 5%positive); reflexivity.
Defined.

End FurtherInstances.
